(** * devzey-blog-platform: the post store, relevance search and related posts

    A shallow embedding of [lib/posts.ts] (the record store with its
    filtering, sorting and pagination, the state-changing operations on
    it, [searchPosts] and [getRelatedPosts]) together with the part of the
    JavaScript runtime these functions lean on: strings, [Array.slice],
    [Array.sort] and [RegExp].

    Conventions of the embedding.
    - A JavaScript string is the sequence of its code units, restricted to
      U+0000..U+00FF; one [ascii] stands for one code unit.
    - A [Date] is its time value (milliseconds since the epoch) in [Z];
      integer counters are in [Z].
    - A JavaScript number is a binary64 floating-point value, held in [Q].
      The points a score is made of are integers, which the format holds
      exactly below 2^53; they are added in [Z].  The quotients
      [viewCount / 100] and milliseconds over days, the sum that adds the
      popularity bonus and the differences the comparators return are
      rounded as the format rounds them ([JS.double]).
    - A post read from the store file holds in [scheduledPublishAt] the ISO
      text of the date, since [readPosts] turns the texts of [createdAt],
      [updatedAt] and [publishedAt] back into dates and no other.  The
      field of the record is the time value that text stands for, and the
      functions that read a stored schedule compare it as the text it is.
    - The store file is read once and is not changed by another writer
      while an operation runs, so every operation takes the array of
      stored posts and, when it writes, returns the new array.
    - The clock ([Date.now()], [new Date()]) is an argument. *)

From Stdlib Require Import ZArith QArith Qminmax Qround Qabs List Bool Ascii String Lia Lqa.
From Stdlib Require Import Sorting.Sorted Sorting.Permutation.
From Stdlib Require Import Decimal DecimalNat DecimalString.
Import ListNotations.

Local Open Scope string_scope.
Local Open Scope list_scope.
Local Open Scope Z_scope.

(* ------------------------------------------------------------------ *)
(** ** The JavaScript runtime the code relies on *)

Module JS.

(** Outcome of an evaluation.  [SyntaxError] is the exception raised by
    [new RegExp(src)] on an ill-formed pattern, [TypeError] the one raised
    by a call of something that is no function; nothing in [lib/posts.ts]
    catches them.  [OutsideModel] marks a pattern that uses regular
    expression syntax the module [RegExp] below does not give a semantics
    to (escapes, classes, braces and [(?] groups). *)
Inductive Abrupt : Type := SyntaxError | TypeError | OutsideModel.

Inductive Completion (A : Type) : Type :=
| Normal (a : A)
| Abort (e : Abrupt).
Arguments Normal {A} a.
Arguments Abort {A} e.

Definition bind {A B} (c : Completion A) (k : A -> Completion B) : Completion B :=
  match c with
  | Normal a => k a
  | Abort e => Abort e
  end.

(** [arr.map(f)] and [arr.forEach] with a callback that may throw: the
    first exception ends the loop. *)
Fixpoint mapM {A B} (f : A -> Completion B) (l : list A) : Completion (list B) :=
  match l with
  | [] => Normal []
  | a :: l' =>
      bind (f a) (fun b => bind (mapM f l') (fun bs => Normal (b :: bs)))
  end.

Fixpoint foldM {A S} (f : S -> A -> Completion S) (s : S) (l : list A) : Completion S :=
  match l with
  | [] => Normal s
  | a :: l' => bind (f s a) (fun s' => foldM f s' l')
  end.

(** *** Strings *)

(** WhiteSpace and LineTerminator code units below U+0100: TAB, LF, VT, FF,
    CR, SP and NBSP.  [trim] and the class [\s] use the same set. *)
Definition isWhiteSpace (c : ascii) : bool :=
  let n := N_of_ascii c in
  (((9 <=? n) && (n <=? 13)) || (n =? 32) || (n =? 160))%N.

Definition isLineTerminator (c : ascii) : bool :=
  let n := N_of_ascii c in ((n =? 10) || (n =? 13))%N.

(** [toLowerCase] on one code unit: A-Z and the capital letters of
    U+00C0..U+00DE (the multiplication sign U+00D7 apart). *)
Definition lowerChar (c : ascii) : ascii :=
  let n := N_of_ascii c in
  if (((65 <=? n) && (n <=? 90))
      || ((192 <=? n) && (n <=? 222) && negb (n =? 215)))%N
  then ascii_of_N (n + 32) else c.

Fixpoint toLowerCase (s : string) : string :=
  match s with
  | EmptyString => EmptyString
  | String c s' => String (lowerChar c) (toLowerCase s')
  end.

Fixpoint trimStart (s : string) : string :=
  match s with
  | EmptyString => EmptyString
  | String c s' => if isWhiteSpace c then trimStart s' else s
  end.

Fixpoint trimEnd (s : string) : string :=
  match s with
  | EmptyString => EmptyString
  | String c s' =>
      match trimEnd s' with
      | EmptyString => if isWhiteSpace c then EmptyString else String c EmptyString
      | t => String c t
      end
  end.

Definition trim (s : string) : string := trimEnd (trimStart s).

Definition startsWith (s t : string) : bool := String.prefix t s.

Fixpoint includes (s t : string) : bool :=
  if String.prefix t s then true
  else match s with
       | EmptyString => false
       | String _ s' => includes s' t
       end.

(** [s.split(/\s+/)]: the pieces between maximal runs of white space, an
    empty first (last) piece when [s] starts (ends) with white space, and
    one empty piece for the empty string.  [inRun] tells that the previous
    code unit was white space. *)
Fixpoint splitWs (inRun : bool) (s : string) : list string :=
  match s with
  | EmptyString => [EmptyString]
  | String c s' =>
      if isWhiteSpace c then
        if inRun then splitWs true s' else EmptyString :: splitWs true s'
      else
        match splitWs false s' with
        | t :: ts => String c t :: ts
        | [] => [String c EmptyString]
        end
  end.

Definition split_whitespace (s : string) : list string := splitWs false s.

(** *** Arrays *)

(** [arr.slice(start, end)] for integer arguments: a negative index counts
    from the end, and both are clamped to [0 .. length]. *)
Definition relativeIndex (len i : Z) : Z :=
  if i <? 0 then Z.max (len + i) 0 else Z.min i len.

Definition slice {A} (l : list A) (start stop : Z) : list A :=
  let len := Z.of_nat (List.length l) in
  let k := relativeIndex len start in
  let final := relativeIndex len stop in
  firstn (Z.to_nat (final - k)) (skipn (Z.to_nat k) l).

(** [arr.sort(comparator)].  The sort of ECMAScript is stable; for a
    comparator that orders by a key it returns the one stable ordering,
    which insertion from the right computes.  [after a b] stands for
    [comparator(a, b) > 0]: [a] has to come after [b]. *)
Fixpoint insert {A} (after : A -> A -> bool) (x : A) (l : list A) : list A :=
  match l with
  | [] => [x]
  | y :: l' => if after x y then y :: insert after x l' else x :: l
  end.

Fixpoint sort {A} (after : A -> A -> bool) (l : list A) : list A :=
  match l with
  | [] => []
  | x :: l' => insert after x (sort after l')
  end.

(** The order a sort by [after] leaves between an element and the ones
    behind it: the element does not have to come after them. *)
Definition notAfter {A} (after : A -> A -> bool) (a b : A) : Prop := after a b = false.

(** [arr.findIndex(pred)]. *)
Fixpoint findIndex {A} (pred : A -> bool) (l : list A) : option nat :=
  match l with
  | [] => None
  | x :: l' => if pred x then Some 0%nat else option_map S (findIndex pred l')
  end.

(** [arr[i] = v] for an index inside the array. *)
Fixpoint assign {A} (l : list A) (i : nat) (v : A) : list A :=
  match l, i with
  | [], _ => []
  | _ :: l', O => v :: l'
  | x :: l', S i' => x :: assign l' i' v
  end.

(** [arr.includes(x)] on an array of strings. *)
Definition arrayIncludes (l : list string) (x : string) : bool :=
  existsb (String.eqb x) l.

(** *** Numbers *)

(** Comparison of numbers held in [Q]. *)
Definition Qlt_bool (a b : Q) : bool := negb (Qle_bool b a).

(** A JavaScript number is a binary64 floating-point value, and the result
    of an arithmetic operation is the value of the format nearest to the
    exact result, a tie going to the even significand.  [double x] is that
    value for the exact result [x].  The exponent is not bounded here, so
    [double] is the rounding of the format for 2^-1022 <= |x| < 2^1024. *)

(** [a / b] rounded to the nearest integer, a tie to the even one
    ([b > 0]). *)
Definition roundHalfEven (a b : Z) : Z :=
  let q := a / b in
  match 2 * (a mod b) ?= b with
  | Lt => q
  | Gt => q + 1
  | Eq => if Z.even q then q else q + 1
  end.

(** [(a, b)] with [a / b = (n / d) / 2^e]. *)
Definition scaled (n d e : Z) : Z * Z :=
  if 0 <=? e then (n, d * 2 ^ e) else (n * 2 ^ (- e), d).

(** The exponent of [n / d]: the [e] with [2^e <= n / d < 2^(e+1)], for
    positive [n] and [d]. *)
Definition binade (n d : Z) : Z :=
  let e := Z.log2 n - Z.log2 d in
  let (a, b) := scaled n d e in
  if b <=? a then e else e - 1.

(** The significand has 53 bits: [n / d] is rounded to a multiple of
    [2^(binade - 52)]. *)
Definition roundPositive (n d : Z) : Q :=
  let e := binade n d - 52 in
  let (a, b) := scaled n d e in
  let m := roundHalfEven a b in
  Qred (if 0 <=? e then inject_Z (m * 2 ^ e) else Qmake m (Z.to_pos (2 ^ (- e)))).

Definition double (x : Q) : Q :=
  match Qnum x with
  | 0 => 0%Q
  | Zpos n => roundPositive (Zpos n) (Zpos (Qden x))
  | Zneg n => (- roundPositive (Zpos n) (Zpos (Qden x)))%Q
  end.

(** *** Dates that went through the store file

    [JSON.stringify] writes a [Date] as the text [toISOString()] gives,
    and [JSON.parse] returns that text.  A text compared with a [Date] by
    [<=] or [>] is converted to a number first. *)

(** The decimal digit of [n mod 10]. *)
Definition digitChar (n : Z) : ascii :=
  match Z.to_nat (n mod 10) with
  | 0 => "0" | 1 => "1" | 2 => "2" | 3 => "3" | 4 => "4"
  | 5 => "5" | 6 => "6" | 7 => "7" | 8 => "8" | _ => "9"
  end%nat%char.

(** The [width] low decimal digits of [n >= 0], the most significant one
    first. *)
Fixpoint decimalDigits (width : nat) (n : Z) : string :=
  match width with
  | O => EmptyString
  | S w => decimalDigits w (n / 10) ++ String (digitChar n) EmptyString
  end.

(** Year, month and day of the day number [days] (days since 1970-01-01)
    in the proleptic Gregorian calendar. *)
Definition civilFromDays (days : Z) : Z * Z * Z :=
  let z := days + 719468 in
  let era := z / 146097 in
  let doe := z mod 146097 in
  let yoe := (doe - doe / 1460 + doe / 36524 - doe / 146096) / 365 in
  let doy := doe - (365 * yoe + yoe / 4 - yoe / 100) in
  let mp := (5 * doy + 2) / 153 in
  let d := doy - (153 * mp + 2) / 5 + 1 in
  let m := if mp <? 10 then mp + 3 else mp - 9 in
  let y := yoe + era * 400 + (if m <=? 2 then 1 else 0) in
  (y, m, d).

(** [new Date(t).toISOString()]: [YYYY-MM-DDTHH:mm:ss.sssZ], with a sign
    and six digits for a year outside 0..9999. *)
Definition toISOString (t : Z) : string :=
  let '(y, m, d) := civilFromDays (t / 86400000) in
  let ms := t mod 86400000 in
  let year :=
    if (0 <=? y) && (y <=? 9999) then decimalDigits 4 y
    else String (if 0 <=? y then "+"%char else "-"%char) (decimalDigits 6 (Z.abs y)) in
  year ++ "-" ++ decimalDigits 2 m ++ "-" ++ decimalDigits 2 d
       ++ "T" ++ decimalDigits 2 (ms / 3600000)
       ++ ":" ++ decimalDigits 2 (ms / 60000 mod 60)
       ++ ":" ++ decimalDigits 2 (ms / 1000 mod 60)
       ++ "." ++ decimalDigits 3 (ms mod 1000) ++ "Z".

(** The values of the Number type that a text can denote. *)
Inductive Number : Type :=
| NaN
| Finite (x : Q)
| Infinity (negative : bool).

(** The value of [c] as a digit of the radix, if it is one. *)
Definition digit (radix : Z) (c : ascii) : option Z :=
  let n := Z.of_N (N_of_ascii c) in
  let v :=
    if (48 <=? n) && (n <=? 57) then n - 48
    else if (97 <=? n) && (n <=? 102) then n - 87
    else if (65 <=? n) && (n <=? 70) then n - 55
    else radix in
  if v <? radix then Some v else None.

(** The decimal digits at the front of [s]: their value after [value],
    their number added to [count], and the rest of [s]. *)
Fixpoint decimalPrefix (s : string) (value : Z) (count : nat) : Z * nat * string :=
  match s with
  | EmptyString => (value, count, s)
  | String c s' =>
      match digit 10 c with
      | Some v => decimalPrefix s' (10 * value + v) (S count)
      | None => (value, count, s)
      end
  end.

(** The value of [s] when it is made of digits of the radix only. *)
Fixpoint radixDigits (radix : Z) (s : string) (value : Z) : option Z :=
  match s with
  | EmptyString => Some value
  | String c s' =>
      match digit radix c with
      | Some v => radixDigits radix s' (radix * value + v)
      | None => None
      end
  end.

(** The radix and the digits of a literal that starts with [0x], [0o] or
    [0b]. *)
Definition radixPrefix (s : string) : option (Z * string) :=
  match s with
  | String c0 (String c s') =>
      if negb (c0 =? "0")%char then None
      else if (c =? "x")%char || (c =? "X")%char then Some (16, s')
      else if (c =? "o")%char || (c =? "O")%char then Some (8, s')
      else if (c =? "b")%char || (c =? "B")%char then Some (2, s')
      else None
  | _ => None
  end.

(** ExponentPart, or nothing, up to the end of the text. *)
Definition exponentPart (s : string) : option Z :=
  match s with
  | EmptyString => Some 0
  | String c s' =>
      if (c =? "e")%char || (c =? "E")%char then
        let (negative, s'') :=
          match s' with
          | String "-" r => (true, r)
          | String "+" r => (false, r)
          | _ => (false, s')
          end in
        match decimalPrefix s'' 0 0 with
        | (e, S _, EmptyString) => Some (if negative then - e else e)
        | _ => None
        end
      else None
  end.

(** The Number value for the exact value [x]: beyond the largest finite
    value an infinity, below 2^-1022 a multiple of 2^-1074. *)
Definition numberOf (x : Q) : Number :=
  if Qle_bool (inject_Z (2 ^ 1024)) (Qabs (double x)) then Infinity (Qlt_bool x 0)
  else if Qlt_bool (Qabs x) (1 # Z.to_pos (2 ^ 1022))
       then Finite (Qred (Qmake (roundHalfEven (Qnum x * 2 ^ 1074) (Zpos (Qden x)))
                                (Z.to_pos (2 ^ 1074))))
       else Finite (double x).

(** StrUnsignedDecimalLiteral: [Infinity], or digits with an optional
    fraction and exponent, one digit at least. *)
Definition unsignedDecimal (s : string) : Number :=
  if (s =? "Infinity")%string then Infinity false
  else
    let '(int, n1, rest) := decimalPrefix s 0 0 in
    let '(frac, n2, rest') :=
      match rest with
      | String "." r => decimalPrefix r 0 0
      | _ => (0, 0%nat, rest)
      end in
    if (n1 + n2 =? 0)%nat then NaN
    else
      match exponentPart rest' with
      | Some e =>
          let digits := inject_Z (int * 10 ^ Z.of_nat n2 + frac) in
          let e' := e - Z.of_nat n2 in
          numberOf (if 0 <=? e' then digits * inject_Z (10 ^ e')
                    else digits / inject_Z (10 ^ (- e')))
      | None => NaN
      end.

Definition negate (x : Number) : Number :=
  match x with
  | NaN => NaN
  | Finite x => Finite (- x)
  | Infinity negative => Infinity (negb negative)
  end.

(** StringToNumber: white space around a numeric literal is skipped, the
    empty text is 0, and a text that is no literal is NaN. *)
Definition stringToNumber (s : string) : Number :=
  match trim s with
  | EmptyString => Finite 0
  | String c s' as literal =>
      match radixPrefix literal with
      | Some (radix, digits) =>
          match digits with
          | EmptyString => NaN
          | _ => match radixDigits radix digits 0 with
                 | Some v => numberOf (inject_Z v)
                 | None => NaN
                 end
          end
      | None =>
          if (c =? "+")%char then unsignedDecimal s'
          else if (c =? "-")%char then negate (unsignedDecimal s')
          else unsignedDecimal literal
      end
  end.

(** [x < y] on numbers: [None] is the undefined result of a comparison
    with NaN. *)
Definition lessThan (x y : Number) : option bool :=
  match x, y with
  | NaN, _ | _, NaN => None
  | Finite a, Finite b => Some (Qlt_bool a b)
  | Infinity negative, Finite _ => Some negative
  | Finite _, Infinity negative => Some (negb negative)
  | Infinity a, Infinity b => Some (a && negb b)
  end.

(** [text <= date] and [text > date] for a text and a [Date] with the time
    value [t]: the text is converted by StringToNumber, the date is its
    time value, and an undefined comparison is false. *)
Definition textAtMostDate (text : string) (t : Z) : bool :=
  match lessThan (Finite (inject_Z t)) (stringToNumber text) with
  | Some false => true
  | _ => false
  end.

Definition textAboveDate (text : string) (t : Z) : bool :=
  match lessThan (Finite (inject_Z t)) (stringToNumber text) with
  | Some true => true
  | _ => false
  end.

End JS.

Notation "x <- c ;; k" := (JS.bind c (fun x => k))
  (at level 61, c at next level, right associativity).

(* ------------------------------------------------------------------ *)
(** ** Regular expressions: [new RegExp(src, 'g')] and [text.match] *)

Module RegExp.
Import JS.

(** The patterns covered: pattern characters, [.], the assertions [^] and
    [$], groups, alternation and the quantifiers [*], [+], [?], greedy or
    lazy.  [Repeat a min max greedy] repeats [a] between [min] and [max]
    times ([None]: no upper bound). *)
Inductive Node : Type :=
| Empty
| Char (c : ascii)
| AnyChar
| LineStart
| LineEnd
| Seq (a b : Node)
| Alt (a b : Node)
| Repeat (a : Node) (min : nat) (max : option nat) (greedy : bool)
| Group (a : Node).

Inductive Parse : Type :=
| Parsed (n : Node) (rest : string)
| Invalid
| Unsupported.

(** Optional quantifier after an atom. *)
Definition parseQuantifier (atom : Node) (s : string) : Node * string :=
  let lazy (min : nat) (max : option nat) (s' : string) :=
    match s' with
    | String "?" s'' => (Repeat atom min max false, s'')
    | _ => (Repeat atom min max true, s')
    end in
  match s with
  | String "*" s' => lazy 0%nat None s'
  | String "+" s' => lazy 1%nat None s'
  | String "?" s' => lazy 0%nat (Some 1%nat) s'
  | _ => (atom, s)
  end.

(** Recursive descent over the pattern text.  [disj = true] parses a
    Disjunction, [disj = false] one Alternative; both stop in front of a
    [)] (and the Alternative in front of a [|]) or at the end.  The fuel
    bounds the depth of the descent, which takes at most two steps for
    each character of the pattern. *)
Fixpoint parse (fuel : nat) (disj : bool) (s : string) : Parse :=
  match fuel with
  | O => Unsupported
  | S fuel' =>
      if disj then
        match parse fuel' false s with
        | Parsed a (String "|" s') =>
            match parse fuel' true s' with
            | Parsed b rest => Parsed (Alt a b) rest
            | r => r
            end
        | r => r
        end
      else
        let continue (atom : Node) (s' : string) :=
          let (term, s'') := parseQuantifier atom s' in
          match parse fuel' false s'' with
          | Parsed n rest => Parsed (Seq term n) rest
          | r => r
          end in
        match s with
        | EmptyString => Parsed Empty s
        | String "|" _ => Parsed Empty s
        | String ")" _ => Parsed Empty s
        | String "*" _ => Invalid                  (* nothing to repeat *)
        | String "+" _ => Invalid
        | String "?" _ => Invalid
        | String "^" s' =>
            match parse fuel' false s' with
            | Parsed n rest => Parsed (Seq LineStart n) rest
            | r => r
            end
        | String "$" s' =>
            match parse fuel' false s' with
            | Parsed n rest => Parsed (Seq LineEnd n) rest
            | r => r
            end
        | String "(" (String "?" _) => Unsupported
        | String "(" s' =>
            match parse fuel' true s' with
            | Parsed d (String ")" s'') => continue (Group d) s''
            | Parsed _ _ => Invalid                (* unterminated group *)
            | r => r
            end
        | String "\" _ => Unsupported
        | String "[" _ => Unsupported
        | String "{" _ => Unsupported
        | String "." s' => continue AnyChar s'
        | String c s' => continue (Char c) s'
        end
  end.

(** [new RegExp(src, 'g')]: the compiled pattern, or the abrupt outcome. *)
Definition compile (src : string) : Completion Node :=
  match parse (2 * String.length src + 2) true src with
  | Parsed n EmptyString => Normal n
  | Parsed _ _ => Abort SyntaxError                (* unmatched ')' *)
  | Invalid => Abort SyntaxError
  | Unsupported => Abort OutsideModel
  end.

(** Matching follows the backtracking semantics of the language
    definition.  A state is the index reached and the text that remains; a
    continuation decides whether the rest of the pattern matches. *)
Definition State : Type := nat * string.
Definition Continuation : Type := State -> option State.

(** RepeatMatcher.  An iteration that is not required ([min = 0]) has to
    consume input, so the remaining length (plus the required iterations)
    bounds the depth. *)
Fixpoint repeatMatcher (fuel : nat) (m : State -> Continuation -> option State)
    (min : nat) (max : option nat) (greedy : bool) (x : State) (c : Continuation)
    : option State :=
  match fuel with
  | O => None
  | S fuel' =>
      match max with
      | Some O => c x
      | _ =>
          let d (y : State) :=
            if Nat.eqb min 0 && Nat.eqb (fst y) (fst x) then None
            else repeatMatcher fuel' m (Nat.pred min) (option_map Nat.pred max) greedy y c in
          if negb (Nat.eqb min 0) then m x d
          else if negb greedy then
            match c x with
            | Some z => Some z
            | None => m x d
            end
          else
            match m x d with
            | Some z => Some z
            | None => c x
            end
      end
  end.

Fixpoint matchNode (r : Node) (x : State) (c : Continuation) {struct r} : option State :=
  match r with
  | Empty => c x
  | Char a =>
      match snd x with
      | String b s' => if Ascii.eqb a b then c (S (fst x), s') else None
      | EmptyString => None
      end
  | AnyChar =>
      match snd x with
      | String b s' => if isLineTerminator b then None else c (S (fst x), s')
      | EmptyString => None
      end
  | LineStart => if Nat.eqb (fst x) 0 then c x else None
  | LineEnd =>
      match snd x with
      | EmptyString => c x
      | String _ _ => None
      end
  | Seq a b => matchNode a x (fun y => matchNode b y c)
  | Alt a b =>
      match matchNode a x c with
      | Some z => Some z
      | None => matchNode b x c
      end
  | Repeat a min max greedy =>
      repeatMatcher (min + S (String.length (snd x))) (matchNode a) min max greedy x c
  | Group a => matchNode a x c
  end.

(** RegExpBuiltinExec from index [i], where [s] is the text from [i] on:
    the first index at which the pattern matches, with the end state. *)
Fixpoint exec (r : Node) (i : nat) (s : string) : option (nat * State) :=
  match matchNode r (i, s) (fun y => Some y) with
  | Some e => Some (i, e)
  | None =>
      match s with
      | EmptyString => None
      | String _ s' => exec r (S i) s'
      end
  end.

(** The loop of [String.prototype.match] for a global pattern: every match
    starts where the previous one ended, one code unit further after an
    empty match.  The result is the number of matches. *)
Fixpoint matchAll (fuel : nat) (r : Node) (i : nat) (s : string) : nat :=
  match fuel with
  | O => O
  | S fuel' =>
      match exec r i s with
      | None => O
      | Some (start, (stop, rest)) =>
          if Nat.eqb stop start then
            match rest with
            | EmptyString => 1%nat
            | String _ rest' => S (matchAll fuel' r (S stop) rest')
            end
          else S (matchAll fuel' r stop rest)
      end
  end.

(** What [lib/posts.ts] asks of the regular expression engine:
    [(text.match(new RegExp(src, 'g')) || []).length] for a text and the
    source of a pattern, or the exception of the constructor. *)
Definition Engine : Type := string -> string -> Completion nat.

(** The engine on the patterns covered here. *)
Definition matchCount : Engine :=
  fun text src =>
    r <- compile src ;;
    Normal (matchAll (S (String.length text)) r 0%nat text).

End RegExp.

(* ------------------------------------------------------------------ *)
(** ** [types/post.ts] and [lib/posts.ts] *)

Module Posts.
Import JS.

Inductive Status : Type := draft | published_status | archived.

Definition Status_eqb (a b : Status) : bool :=
  match a, b with
  | draft, draft | published_status, published_status | archived, archived => true
  | _, _ => false
  end.

Inductive SortField : Type :=
| sort_createdAt | sort_updatedAt | sort_publishedAt | sort_viewCount | sort_likeCount.

Inductive SortOrder : Type := asc | desc.

(** [interface Post].  The fields that neither the search nor the related
    posts nor the publication logic reads (slug, reading time and word
    count, SEO and social texts, custom fields, the comment counter and
    [lastViewedAt]) are not carried.  An optional field is an [option];
    [publishedAt: Date | null] too.  [scheduledPublishAt] is the time value
    of the schedule: a date in a request and in the post [createPost]
    returns, and the ISO text of that date in a post that [readPosts]
    returns (it revives [createdAt], [updatedAt] and [publishedAt] only). *)
Record Post : Type := mkPost {
  id : string;
  title : string;
  content : string;
  excerpt : string;
  author : string;
  published : bool;
  publishedAt : option Z;
  createdAt : Z;
  updatedAt : Z;
  tags : list string;
  category : string;
  status : Status;
  scheduledPublishAt : option Z;
  viewCount : Z;
  likeCount : Z;
  series : option string;
  relatedPosts : option (list string)
}.

(** [interface CreatePostRequest] *)
Module CreatePostRequest.
Record t : Type := mk {
  title : string;
  content : string;
  excerpt : string;
  author : string;
  published : option bool;
  tags : option (list string);
  category : option string;
  status : option Status;
  scheduledPublishAt : option Z;
  series : option string;
  relatedPosts : option (list string)
}.
End CreatePostRequest.

(** [interface UpdatePostRequest]: [None] is an absent key.  For
    [scheduledPublishAt] the code tells [null] ([Some None]) from
    [undefined] ([None]). *)
Module UpdatePostRequest.
Record t : Type := mk {
  title : option string;
  content : option string;
  excerpt : option string;
  author : option string;
  published : option bool;
  tags : option (list string);
  category : option string;
  status : option Status;
  scheduledPublishAt : option (option Z);
  series : option string;
  relatedPosts : option (list string)
}.
End UpdatePostRequest.

(** [interface PostFilters] *)
Module PostFilters.
Record t : Type := mk {
  published : option bool;
  author : option string;
  category : option string;
  tag : option string;
  limit : option Z;
  offset : option Z;
  sortBy : option SortField;
  sortOrder : option SortOrder;
  status : option Status;
  series : option string;
  dateFrom : option Z;
  dateTo : option Z;
  minViews : option Z;
  search : option string;
  excludeIds : option (list string)
}.

(** [{}] *)
Definition empty : t :=
  mk None None None None None None None None None None None None None None None.

(** [const { search: _, ...filtersWithoutSearch } = filters] *)
Definition withoutSearch (f : t) : t :=
  mk (published f) (author f) (category f) (tag f) (limit f) (offset f)
     (sortBy f) (sortOrder f) (status f) (series f) (dateFrom f) (dateTo f)
     (minViews f) None (excludeIds f).
End PostFilters.

(** [a || b] on an optional date: a [Date] object is always truthy. *)
Definition orDate (a : option Z) (b : Z) : Z :=
  match a with Some t => t | None => b end.

(** [if (filters.key)] on an optional string: absent and the empty string are falsy. *)
Definition whenString {A} (o : option string) (f : string -> A -> A) (x : A) : A :=
  match o with
  | Some s => if (String.length s =? 0)%nat then x else f s x
  | None => x
  end.

Definition whenSome {K A} (o : option K) (f : K -> A -> A) (x : A) : A :=
  match o with Some k => f k x | None => x end.

(** *** [getPosts]: filter, sort, paginate *)

(** The block under [// Apply filters], one statement after the other. *)
Definition applyFilters (filters : PostFilters.t) (posts : list Post) : list Post :=
  let posts := whenSome (PostFilters.published filters)
      (fun b => filter (fun post => Bool.eqb (published post) b)) posts in
  let posts := whenString (PostFilters.author filters)
      (fun a => filter (fun post => includes (toLowerCase (author post)) (toLowerCase a))) posts in
  let posts := whenString (PostFilters.category filters)
      (fun c => filter (fun post => (toLowerCase (category post) =? toLowerCase c)%string)) posts in
  let posts := whenString (PostFilters.tag filters)
      (fun t => filter (fun post =>
         existsb (fun tag => includes (toLowerCase tag) (toLowerCase t)) (tags post))) posts in
  let posts := whenSome (PostFilters.status filters)
      (fun s => filter (fun post => Status_eqb (status post) s)) posts in
  let posts := whenString (PostFilters.series filters)
      (fun s => filter (fun post =>
         match series post with
         | Some ps => includes (toLowerCase ps) (toLowerCase s)
         | None => false
         end)) posts in
  let posts := whenSome (PostFilters.dateFrom filters)
      (fun d => filter (fun post => d <=? createdAt post)) posts in
  let posts := whenSome (PostFilters.dateTo filters)
      (fun d => filter (fun post => createdAt post <=? d)) posts in
  let posts := whenSome (PostFilters.minViews filters)
      (fun v => filter (fun post => v <=? viewCount post)) posts in
  let posts := whenSome (PostFilters.excludeIds filters)
      (fun ids => if (0 <? List.length ids)%nat
                  then filter (fun post => negb (arrayIncludes ids (id post)))
                  else fun posts => posts) posts in
  let posts := whenString (PostFilters.search filters)
      (fun s => let searchTerm := toLowerCase s in
         filter (fun post =>
           includes (toLowerCase (title post)) searchTerm
           || includes (toLowerCase (content post)) searchTerm
           || includes (toLowerCase (excerpt post)) searchTerm
           || existsb (fun tag => includes (toLowerCase tag) searchTerm) (tags post)
           || includes (toLowerCase (category post)) searchTerm
           || includes (toLowerCase (author post)) searchTerm)) posts in
  posts.

(** The [switch (sortBy)] of the comparator. *)
Definition sortValue (sortBy : SortField) (a : Post) : Z :=
  match sortBy with
  | sort_publishedAt => orDate (publishedAt a) (createdAt a)
  | sort_updatedAt => updatedAt a
  | sort_viewCount => viewCount a
  | sort_likeCount => likeCount a
  | sort_createdAt => createdAt a
  end.

(** The comparator handed to [posts.sort]. *)
Definition comparePosts (sortBy : SortField) (sortOrder : SortOrder) (a b : Post) : Z :=
  let aValue := sortValue sortBy a in
  let bValue := sortValue sortBy b in
  match sortOrder with
  | asc => aValue - bValue
  | desc => bValue - aValue
  end.

Definition sortPosts (filters : PostFilters.t) (posts : list Post) : list Post :=
  let sortBy := match PostFilters.sortBy filters with Some f => f | None => sort_createdAt end in
  let sortOrder := match PostFilters.sortOrder filters with Some o => o | None => desc end in
  sort (fun a b => 0 <? comparePosts sortBy sortOrder a b) posts.

(** [x || fallback] on an optional number: absent and [0] are falsy. *)
Definition orNumber (o : option Z) (fallback : Z) : Z :=
  match o with
  | Some n => if n =? 0 then fallback else n
  | None => fallback
  end.

Definition paginate (filters : PostFilters.t) (posts : list Post) : list Post :=
  let offset := orNumber (PostFilters.offset filters) 0 in
  let limit := orNumber (PostFilters.limit filters) (Z.of_nat (List.length posts)) in
  slice posts offset (offset + limit).

Definition getPosts (filters : PostFilters.t) (stored : list Post) : list Post :=
  paginate filters (sortPosts filters (applyFilters filters stored)).

Definition getPostById (postId : string) (stored : list Post) : option Post :=
  find (fun post => (id post =? postId)%string) stored.

(** *** The operations that write the store *)

(** [createPost].  [newId] is the identifier drawn from the clock and
    [Math.random]; the result is the new post and the array written. *)
Definition createPost (now : Z) (newId : string) (data : CreatePostRequest.t)
    (stored : list Post) : Post * list Post :=
  let shouldPublish :=
    match CreatePostRequest.status data with
    | Some published_status =>
        match CreatePostRequest.scheduledPublishAt data with
        | None => true
        | Some at_ => at_ <=? now
        end
    | _ => false
    end in
  let post := {|
    id := newId;
    title := CreatePostRequest.title data;
    content := CreatePostRequest.content data;
    excerpt := CreatePostRequest.excerpt data;
    author := CreatePostRequest.author data;
    published := shouldPublish;
    publishedAt :=
      if shouldPublish then Some (orDate (CreatePostRequest.scheduledPublishAt data) now)
      else None;
    createdAt := now;
    updatedAt := now;
    tags := match CreatePostRequest.tags data with Some t => t | None => [] end;
    category :=
      match CreatePostRequest.category data with
      | Some c => if (String.length c =? 0)%nat then "Uncategorized" else c
      | None => "Uncategorized"
      end;
    status := match CreatePostRequest.status data with Some s => s | None => draft end;
    scheduledPublishAt := CreatePostRequest.scheduledPublishAt data;
    viewCount := 0;
    likeCount := 0;
    series := CreatePostRequest.series data;
    relatedPosts :=
      Some (match CreatePostRequest.relatedPosts data with Some r => r | None => [] end)
  |} in
  (post, stored ++ [post]).

Definition orElse {A} (o : option A) (d : A) : A :=
  match o with Some a => a | None => d end.

(** The record [updatePost] builds from the stored post and the request. *)
Definition updatedPost (now : Z) (existingPost : Post) (data : UpdatePostRequest.t) : Post :=
  let newStatus := orElse (UpdatePostRequest.status data) (status existingPost) in
  let newPublished := orElse (UpdatePostRequest.published data) (published existingPost) in
  let newPublishedAt := publishedAt existingPost in
  (* If status is explicitly set to published, ensure published is true *)
  let '(newPublished, newPublishedAt) :=
    if Status_eqb newStatus published_status
    then (true, Some (orDate newPublishedAt now))
    else (newPublished, newPublishedAt) in
  (* Handle scheduled publishing *)
  let '(newPublished, newPublishedAt) :=
    match UpdatePostRequest.scheduledPublishAt data with
    | Some (Some at_) =>
        if (at_ <=? now) && Status_eqb newStatus published_status
        then (true, Some at_)
        else (newPublished, newPublishedAt)
    | _ => (newPublished, newPublishedAt)
    end in
  {|
    id := id existingPost;
    title := orElse (UpdatePostRequest.title data) (title existingPost);
    content := orElse (UpdatePostRequest.content data) (content existingPost);
    excerpt := orElse (UpdatePostRequest.excerpt data) (excerpt existingPost);
    author := orElse (UpdatePostRequest.author data) (author existingPost);
    published := newPublished;
    publishedAt := newPublishedAt;
    createdAt := createdAt existingPost;
    updatedAt := now;
    tags := orElse (UpdatePostRequest.tags data) (tags existingPost);
    category := orElse (UpdatePostRequest.category data) (category existingPost);
    status := newStatus;
    scheduledPublishAt :=
      match UpdatePostRequest.scheduledPublishAt data with
      | Some v => v
      | None => scheduledPublishAt existingPost
      end;
    viewCount := viewCount existingPost;
    likeCount := likeCount existingPost;
    series :=
      match UpdatePostRequest.series data with
      | Some s => Some s
      | None => series existingPost
      end;
    relatedPosts :=
      match UpdatePostRequest.relatedPosts data with
      | Some r => Some r
      | None => relatedPosts existingPost
      end
  |}.

(** [updatePost]: [None] is the [null] returned for an unknown id, else
    the updated post and the array written. *)
Definition updatePost (now : Z) (postId : string) (data : UpdatePostRequest.t)
    (stored : list Post) : option (Post * list Post) :=
  match findIndex (fun post => (id post =? postId)%string) stored with
  | None => None
  | Some index =>
      match nth_error stored index with
      | None => None
      | Some existingPost =>
          let post := updatedPost now existingPost data in
          Some (post, assign stored index post)
      end
  end.

(** [bulkUpdatePosts]: the loop runs over the array read at the start and
    every [updatePost] reads the store again; [clock i] is the time of the
    call made at index [i].  The result is the array left in the store with
    the [updated] count and the [failed] ids. *)
Fixpoint bulkUpdateLoop (clock : nat -> Z) (ids : list string) (updates : UpdatePostRequest.t)
    (i : nat) (posts : list Post) (stored : list Post) (updated : nat) (failed : list string)
    : list Post * (nat * list string) :=
  match posts with
  | [] => (stored, (updated, failed))
  | post :: rest =>
      if arrayIncludes ids (id post) then
        match updatePost (clock i) (id post) updates stored with
        | Some (_, stored') =>
            bulkUpdateLoop clock ids updates (S i) rest stored' (S updated) failed
        | None =>
            bulkUpdateLoop clock ids updates (S i) rest stored updated (failed ++ [id post])
        end
      else bulkUpdateLoop clock ids updates (S i) rest stored updated failed
  end.

Definition bulkUpdatePosts (clock : nat -> Z) (ids : list string) (updates : UpdatePostRequest.t)
    (stored : list Post) : list Post * (nat * list string) :=
  bulkUpdateLoop clock ids updates 0 stored stored 0 [].

Definition bulkPublishPosts (clock : nat -> Z) (ids : list string) (publish : bool)
    (stored : list Post) : list Post * (nat * list string) :=
  bulkUpdatePosts clock ids
    (UpdatePostRequest.mk None None None None (Some publish) None None
       (Some (if publish then published_status else draft)) None None None)
    stored.

(** [publishScheduledPosts]: the array after the loop and the number of
    posts published (nothing in the loop body throws, so [failed] stays
    empty).  The posts come from [readPosts], so [post.scheduledPublishAt]
    is the ISO text of the schedule: the guard asks for a text that is not
    empty and compares the text with the date [now].  The [publishedAt]
    written is that text, which the next [readPosts] turns into the date. *)
Definition publishIfDue (now : Z) (post : Post) : Post * bool :=
  match scheduledPublishAt post with
  | Some at_ =>
      let text := toISOString at_ in
      if Status_eqb (status post) published_status && negb (published post)
         && negb (String.length text =? 0)%nat && textAtMostDate text now
      then ({| id := id post; title := title post; content := content post;
               excerpt := excerpt post; author := author post;
               published := true;
               publishedAt := Some at_;
               createdAt := createdAt post;
               updatedAt := now;
               tags := tags post; category := category post; status := status post;
               scheduledPublishAt := scheduledPublishAt post;
               viewCount := viewCount post; likeCount := likeCount post;
               series := series post; relatedPosts := relatedPosts post |}, true)
      else (post, false)
  | None => (post, false)
  end.

Definition publishScheduledPosts (now : Z) (stored : list Post) : list Post * nat :=
  let results := map (publishIfDue now) stored in
  (map fst results, List.length (filter snd results)).

(** *** [searchPosts] *)

(** [(Date.now() - t) / (1000 * 60 * 60 * 24)] *)
Definition daysSince (now t : Z) : Q :=
  double (double (inject_Z (now - t)) / inject_Z (1000 * 60 * 60 * 24)).

(** The body of [searchTerms.forEach(term => ...)]: the running [score]
    goes through the statements in order; it is a sum of integers here.
    [new RegExp(term, 'g')] is only built when the field contains the
    term, and may throw: [matchCount] is the engine. *)
Definition scoreTerm (matchCount : RegExp.Engine)
    (titleLower excerptLower contentLower categoryLower authorLower : string)
    (tagsLower : list string) (score : Z) (term : string) : Completion Z :=
  (* Title matches (highest weight) *)
  let score :=
    if (titleLower =? term)%string then score + 100
    else if startsWith titleLower term then score + 50
    else if includes titleLower term then score + 30
    else score in
  (* Tag matches (high weight) *)
  let tagMatches := filter (fun tag => (tag =? term)%string || includes tag term) tagsLower in
  let score := score + Z.of_nat (List.length tagMatches) * 25 in
  (* Category match (medium weight) *)
  let score :=
    if (categoryLower =? term)%string then score + 20
    else if includes categoryLower term then score + 10
    else score in
  (* Author match (medium weight) *)
  let score := if includes authorLower term then score + 15 else score in
  (* Excerpt matches (medium weight) *)
  score <- (if includes excerptLower term then
              let score := score + 10 in
              matches <- matchCount excerptLower term ;;
              Normal (score + Z.of_nat matches * 2)
            else Normal score) ;;
  (* Content matches (lower weight, but can accumulate) *)
  score <- (if includes contentLower term then
              let score := score + 5 in
              matches <- matchCount contentLower term ;;
              Normal (score + Z.min (Z.of_nat matches) 10)
            else Normal score) ;;
  Normal score.

(** The callback of [posts.map(post => ...)], without the pairing.  The
    popularity bonus is the first term that is no integer: the quotient
    and the sum are rounded. *)
Definition scorePostWith (matchCount : RegExp.Engine) (now : Z) (searchTerms : list string)
    (post : Post) : Completion Q :=
  let titleLower := toLowerCase (title post) in
  let excerptLower := toLowerCase (excerpt post) in
  let contentLower := toLowerCase (content post) in
  let categoryLower := toLowerCase (category post) in
  let authorLower := toLowerCase (author post) in
  let tagsLower := map toLowerCase (tags post) in
  score <- foldM (scoreTerm matchCount titleLower excerptLower contentLower categoryLower
                    authorLower tagsLower) 0 searchTerms ;;
  (* Boost for recent posts (small bonus) *)
  let daysSincePublished :=
    match publishedAt post with
    | Some t => daysSince now t
    | None => daysSince now (createdAt post)
    end in
  let score := if Qlt_bool daysSincePublished 30%Q then score + 5 else score in
  (* Boost for popular posts (small bonus) *)
  let score :=
    if 100 <? viewCount post
    then double (inject_Z score + Qmin (double (inject_Z (viewCount post) / 100)) 5)
    else inject_Z score in
  Normal score.

(** The comparator of the relevance sort, on [{ post, score }] pairs. *)
Definition compareScored (a b : Post * Q) : Q :=
  if negb (Qeq_bool (snd b) (snd a)) then double (snd b - snd a)
  else
    let aDate := orDate (publishedAt (fst a)) (createdAt (fst a)) in
    let bDate := orDate (publishedAt (fst b)) (createdAt (fst b)) in
    double (inject_Z (bDate - aDate)).

Definition searchTermsOf (query : string) : list string :=
  filter (fun term => (0 <? String.length term)%nat)
         (split_whitespace (trim (toLowerCase query))).

(** [searchPosts] over an engine. *)
Definition searchPostsWith (matchCount : RegExp.Engine) (now : Z) (query : string)
    (filters : PostFilters.t) (stored : list Post) : Completion (list Post) :=
  if (String.length query =? 0)%nat || (String.length (trim query) =? 0)%nat
  then Normal (getPosts filters stored)
  else
    let searchTerms := searchTermsOf query in
    if (List.length searchTerms =? 0)%nat then Normal (getPosts filters stored)
    else
      (* Get all posts with filters applied (except search) *)
      let filtersWithoutSearch := PostFilters.withoutSearch filters in
      let posts := getPosts filtersWithoutSearch stored in
      (* Score and rank posts based on relevance *)
      scoredPosts <- mapM (fun post =>
                             score <- scorePostWith matchCount now searchTerms post ;;
                             Normal (post, score)) posts ;;
      (* Filter out posts with zero score and sort by score *)
      let relevantPosts :=
        map fst
          (sort (fun a b => Qlt_bool 0%Q (compareScored a b))
             (filter (fun item => Qlt_bool 0%Q (snd item)) scoredPosts)) in
      (* Apply limit if specified *)
      match PostFilters.limit filters with
      | Some l => if l =? 0 then Normal relevantPosts else Normal (slice relevantPosts 0 l)
      | None => Normal relevantPosts
      end.

(** The scoring and the search with the engine of the module [RegExp],
    which answers for the patterns it covers. *)
Definition scorePost : Z -> list string -> Post -> Completion Q :=
  scorePostWith RegExp.matchCount.

Definition searchPosts : Z -> string -> PostFilters.t -> list Post -> Completion (list Post) :=
  searchPostsWith RegExp.matchCount.

(** *** [getRelatedPosts] *)

Definition validateRelatedPosts (postIds : list string) (stored : list Post)
    : list string * list string :=
  if (List.length postIds =? 0)%nat then ([], [])
  else
    let existingPostIds := map id stored in
    (filter (fun i => arrayIncludes existingPostIds i) postIds,
     filter (fun i => negb (arrayIncludes existingPostIds i)) postIds).

(** [{ published: true, excludeIds: [postId] }], with [limit] when given. *)
Definition publishedExcept (postId : string) (limit : option Z) : PostFilters.t :=
  PostFilters.mk (Some true) None None None limit None None None None None None None None
    None (Some [postId]).

(** [t?.getTime() || createdAt.getTime()]: the time value 0 is falsy. *)
Definition timeOr (t : option Z) (fallback : Z) : Z :=
  match t with
  | Some v => if v =? 0 then fallback else v
  | None => fallback
  end.

(** The callback of [relatedPosts.map(relatedPost => ...)]: integer
    points, then the popularity bonus with its rounded quotient and sum. *)
Definition similarity (now : Z) (post relatedPost : Post) : Q :=
  let score := 0 in
  (* Same category (highest weight) *)
  let score := if (category relatedPost =? category post)%string then score + 30 else score in
  (* Shared tags (high weight) *)
  let sharedTags :=
    List.length (filter (fun tag => arrayIncludes (tags post) tag) (tags relatedPost)) in
  let score := score + Z.of_nat sharedTags * 20 in
  (* Same author (medium weight) *)
  let score := if (author relatedPost =? author post)%string then score + 10 else score in
  (* Same series (high weight if applicable) *)
  let score :=
    match series relatedPost, series post with
    | Some s, Some s' =>
        if (s =? s')%string && negb (String.length s =? 0)%nat then score + 25 else score
    | _, _ => score
    end in
  (* Recent posts get slight boost *)
  let daysSincePublished :=
    daysSince now (timeOr (publishedAt relatedPost) (createdAt relatedPost)) in
  let score := if Qlt_bool daysSincePublished 30%Q then score + 5 else score in
  (* Popular posts get slight boost *)
  let score :=
    if 100 <? viewCount relatedPost
    then double (inject_Z score + Qmin (double (inject_Z (viewCount relatedPost) / 100)) 10)
    else inject_Z score in
  score.

(** The curated phase.  [inl filtered] is the early [return filtered];
    [inr (filtered, limit')] goes on to the automatic phase with the limit
    the code leaves in [limit] ([filtered] is what the curated phase had
    found, [[]] when it did not run). *)
Definition curatedPhase (postId : string) (limit : Z) (post : Post) (stored : list Post)
    : list Post + (list Post * Z) :=
  match relatedPosts post with
  | Some ((_ :: _) as ids) =>
      let valid := fst (validateRelatedPosts ids stored) in
      if (0 <? List.length valid)%nat then
        let manualRelatedPosts := getPosts (publishedExcept postId None) stored in
        let filtered :=
          slice (filter (fun p => arrayIncludes valid (id p)) manualRelatedPosts) 0 limit in
        if limit <=? Z.of_nat (List.length filtered) then inl filtered
        else inr (filtered, limit - Z.of_nat (List.length filtered))
      else inr ([], limit)
  | _ => inr ([], limit)
  end.

(** The automatic phase, with the limit it is entered with. *)
Definition automaticPhase (now : Z) (postId : string) (limit : Z) (post : Post)
    (stored : list Post) : list Post :=
  let relatedPosts := getPosts (publishedExcept postId (Some (limit * 3))) stored in
  let scoredPosts := map (fun relatedPost => (relatedPost, similarity now post relatedPost))
                         relatedPosts in
  map fst (slice (sort (fun a b => Qlt_bool 0%Q (double (snd b - snd a))) scoredPosts)
                 0 limit).

Definition getRelatedPosts (now : Z) (postId : string) (limit : Z) (stored : list Post)
    : list Post :=
  match getPostById postId stored with
  | None => []
  | Some post =>
      match curatedPhase postId limit post stored with
      | inl filtered => filtered
      | inr (_, limit') => automaticPhase now postId limit' post stored
      end
  end.

End Posts.


(* ------------------------------------------------------------------ *)
(** ** Notions of the specification, and sample stores *)

Module Spec.
Import JS Posts.

(** "Effective date": [publishedAt] if set, else [createdAt]. *)
Definition effectiveDate (p : Post) : Z := orDate (publishedAt p) (createdAt p).

(** [published === true] implies [publishedAt] is non-null. *)
Definition publishedHasDate (p : Post) : Prop :=
  published p = true -> publishedAt p <> None.

(** A query that is empty or consists only of white space. *)
Fixpoint blank (s : string) : bool :=
  match s with
  | EmptyString => true
  | String c s' => isWhiteSpace c && blank s'
  end.

(** The record [p] with another view count. *)
Definition withViewCount (v : Z) (p : Post) : Post :=
  {| id := id p; title := title p; content := content p; excerpt := excerpt p;
     author := author p; published := published p; publishedAt := publishedAt p;
     createdAt := createdAt p; updatedAt := updatedAt p; tags := tags p;
     category := category p; status := status p;
     scheduledPublishAt := scheduledPublishAt p; viewCount := v;
     likeCount := likeCount p; series := series p; relatedPosts := relatedPosts p |}.

(** The record [p] with another excerpt. *)
Definition withExcerpt (e : string) (p : Post) : Post :=
  {| id := id p; title := title p; content := content p; excerpt := e;
     author := author p; published := published p; publishedAt := publishedAt p;
     createdAt := createdAt p; updatedAt := updatedAt p; tags := tags p;
     category := category p; status := status p;
     scheduledPublishAt := scheduledPublishAt p; viewCount := viewCount p;
     likeCount := likeCount p; series := series p; relatedPosts := relatedPosts p |}.

(** The order of a relevance-ranked list: [a] may stand before [b] when
    its score is higher, or the scores are equal and its effective date is
    not older.  The scores are the numbers the code computes, with the
    engine [matchCount]. *)
Definition rankedBefore (matchCount : RegExp.Engine) (now : Z) (searchTerms : list string)
    (a b : Post) : Prop :=
  exists sa sb : Q,
    scorePostWith matchCount now searchTerms a = Normal sa /\
    scorePostWith matchCount now searchTerms b = Normal sb /\
    ((sb < sa)%Q \/ ((sa == sb)%Q /\ effectiveDate b <= effectiveDate a)).

(** The score of a record that has [points] points when the popularity
    bonus of [searchPosts] is added, for its view count. *)
Definition withPopularity (points viewCount : Z) : Q :=
  if 100 <? viewCount
  then double (inject_Z points + Qmin (double (inject_Z viewCount / 100)) 5)
  else inject_Z points.

(** The order [getPosts] leaves for the sort field and direction asked
    for (creation time, newest first, when nothing is asked). *)
Definition listedBefore (filters : PostFilters.t) (a b : Post) : Prop :=
  comparePosts
    (match PostFilters.sortBy filters with Some f => f | None => sort_createdAt end)
    (match PostFilters.sortOrder filters with Some o => o | None => desc end)
    a b <= 0.

(** The query token occurs in one of the searched fields of the record. *)
Definition mentions (term : string) (p : Post) : bool :=
  includes (toLowerCase (title p)) term
  || existsb (fun tag => includes (toLowerCase tag) term) (tags p)
  || includes (toLowerCase (category p)) term
  || includes (toLowerCase (author p)) term
  || includes (toLowerCase (excerpt p)) term
  || includes (toLowerCase (content p)) term.

(** No code unit of the token is a syntax character of patterns. *)
Definition syntaxCharacter (c : ascii) : bool :=
  existsb (Ascii.eqb c)
    ["^"; "$"; "\"; "."; "*"; "+"; "?"; "("; ")"; "["; "]"; "{"; "}"; "|"]%char.

Fixpoint plain (s : string) : bool :=
  match s with
  | EmptyString => true
  | String c s' => negb (syntaxCharacter c) && plain s'
  end.

(** The pattern a token without syntax characters compiles to: its code
    units in sequence. *)
Fixpoint literal (s : string) : RegExp.Node :=
  match s with
  | EmptyString => RegExp.Empty
  | String c s' => RegExp.Seq (RegExp.Char c) (literal s')
  end.

(** [s.substring(n)] *)
Fixpoint dropChars (n : nat) (s : string) : string :=
  match n, s with
  | O, _ => s
  | S n', String _ s' => dropChars n' s'
  | S _, EmptyString => EmptyString
  end.

(** The number of non-overlapping occurrences of a non-empty [token] in
    [text], counted from the left: an occurrence at the front is counted
    and skipped, otherwise the count goes on one code unit further.  The
    fuel is a bound on the length of [text]. *)
Fixpoint occurrencesFrom (fuel : nat) (token text : string) : nat :=
  match fuel with
  | O => O
  | S fuel' =>
      if String.prefix token text
      then S (occurrencesFrom fuel' token (dropChars (String.length token) text))
      else match text with
           | EmptyString => O
           | String _ text' => occurrencesFrom fuel' token text'
           end
  end.

Definition occurrences (token text : string) : nat :=
  occurrencesFrom (S (String.length text)) token text.

End Spec.

Module Samples.
Import JS Posts.

Definition day : Z := 1000 * 60 * 60 * 24.

(** The evaluation time of the samples: 2023-11-14T22:13:20Z. *)
Definition now : Z := 1700000000000.

(** A published article created (and published) [age] days before [now]. *)
Definition article (i t body summary writer cat : string) (labels : list string)
    (age views : Z) (related : list string) : Post :=
  {| id := i; title := t; content := body; excerpt := summary; author := writer;
     published := true; publishedAt := Some (now - age * day);
     createdAt := now - age * day; updatedAt := now - age * day;
     tags := labels; category := cat; status := published_status;
     scheduledPublishAt := None; viewCount := views; likeCount := 0;
     series := None; relatedPosts := Some related |}.

(** Three old articles: "a" names "b" as its one curated relation, and
    shares its category with "c" only. *)
Definition postA : Post :=
  article "a" "Typed closures" "On closures." "Closures, typed." "ann" "Tech" ["types"]
          400 0 ["b"].
Definition postB : Post :=
  article "b" "Sourdough at home" "Flour and water." "A starter." "bob" "Cooking" ["bread"]
          300 0 [].
Definition postC : Post :=
  article "c" "Row polymorphism" "On rows." "Rows, typed." "cy" "Tech" ["records"]
          200 0 [].
Definition library : list Post := [postA; postB; postC].

(** An old article whose excerpt holds the word "hello" once, and nothing
    else of it. *)
Definition greeting : Post :=
  article "g" "Salutations" "Body text." "Hello world" "ann" "Misc" [] 400 0 [].

(** An old article with a parenthesis in its excerpt, and one about C++. *)
Definition calculus : Post :=
  article "f" "Functions" "Body text." "Write f(x) for the value." "ann" "Math" [] 400 0 [].
Definition cplusplus : Post :=
  article "p" "Systems languages" "Learning C++ takes time." "A summary." "ann" "Misc" []
          400 0 [].

(** Two old articles that hold the word "tally" in the content alone,
    once and twice; the second one is the newer. *)
Definition tallyOnce : Post :=
  article "t1" "Ledgers" "Keep a tally." "On ledgers." "ann" "Misc" [] 400 403 [].
Definition tallyTwice : Post :=
  article "t2" "Counting" "A tally is a tally." "On counting." "bob" "Notes" [] 300 303 [].

(** A reference article, and two articles that share nothing with it: one
    published yesterday with 119 views, one old with 619 views. *)
Definition almanac : Post :=
  article "x" "Almanac" "Dates." "An almanac." "zed" "Reference" ["dates"] 500 0 [].
Definition freshNote : Post :=
  article "n" "Fresh note" "New." "A note." "ann" "Misc" [] 1 119 [].
Definition oldEssay : Post :=
  article "o" "Old essay" "Old." "An essay." "bob" "Notes" [] 300 619 [].

(** An article published yesterday that never mentions Python. *)
Definition reactGuide : Post :=
  article "r" "React Guide" "Master React development." "Components." "jane" "Tech"
          ["react"; "javascript"] 1 0 [].

(** A draft that was never published. *)
Definition draftPost : Post :=
  {| id := "d"; title := "Notes"; content := "Unfinished."; excerpt := "Notes.";
     author := "ann"; published := false; publishedAt := None;
     createdAt := now - 10 * day; updatedAt := now - 10 * day; tags := [];
     category := "Misc"; status := draft; scheduledPublishAt := None;
     viewCount := 0; likeCount := 0; series := None; relatedPosts := Some [] |}.

(** [{ published: true }]: the request that only sets the flag. *)
Definition setPublished : UpdatePostRequest.t :=
  UpdatePostRequest.mk None None None None (Some true) None None None None None None.

(** [{ limit: 1 }] *)
Definition firstOnly : PostFilters.t :=
  PostFilters.mk None None None None (Some 1) None None None None None None None None
    None None.

End Samples.

(* ------------------------------------------------------------------ *)
(** ** [lib/posts.ts]: slugs, counts, removal, counters, statistics and
       the schedule *)

Module Lib.
Import JS Posts.

(** *** [generateSlug] *)

(** The class [\w]: ASCII letters, digits and the underscore. *)
Definition isWordChar (c : ascii) : bool :=
  let n := N_of_ascii c in
  (((48 <=? n) && (n <=? 57)) || ((65 <=? n) && (n <=? 90))
   || ((97 <=? n) && (n <=? 122)) || (n =? 95))%N.

Definition isHyphen (c : ascii) : bool := Ascii.eqb c "-"%char.

(** [s.replace(/[^...]/g, '')]: the code units of the class [keep] stay. *)
Fixpoint removeOthers (keep : ascii -> bool) (s : string) : string :=
  match s with
  | EmptyString => EmptyString
  | String c s' =>
      if keep c then String c (removeOthers keep s') else removeOthers keep s'
  end.

(** [s.replace(/p+/g, '-')]: every maximal run of code units of the class
    [p] becomes one hyphen.  [inRun] tells that the previous code unit was
    in the class. *)
Fixpoint replaceRuns (p : ascii -> bool) (inRun : bool) (s : string) : string :=
  match s with
  | EmptyString => EmptyString
  | String c s' =>
      if p c then
        if inRun then replaceRuns p true s' else String "-"%char (replaceRuns p true s')
      else String c (replaceRuns p false s')
  end.

(** The two alternatives of [s.replace(/^-+|-+$/g, '')]. *)
Fixpoint stripStart (p : ascii -> bool) (s : string) : string :=
  match s with
  | EmptyString => EmptyString
  | String c s' => if p c then stripStart p s' else s
  end.

Fixpoint stripEnd (p : ascii -> bool) (s : string) : string :=
  match s with
  | EmptyString => EmptyString
  | String c s' =>
      match stripEnd p s' with
      | EmptyString => if p c then EmptyString else String c EmptyString
      | t => String c t
      end
  end.

Definition generateSlug (title : string) : string :=
  let s := toLowerCase title in
  (* Remove special characters *)
  let s := removeOthers (fun c => isWordChar c || isWhiteSpace c || isHyphen c) s in
  (* Replace spaces with hyphens *)
  let s := replaceRuns isWhiteSpace false s in
  (* Replace multiple hyphens with single hyphen *)
  let s := replaceRuns isHyphen false s in
  (* Remove leading/trailing hyphens *)
  let s := stripEnd isHyphen (stripStart isHyphen s) in
  trim s.

(** *** [ensureUniqueSlug] *)

(** The template string of the loop: the base slug, a hyphen and the
    counter in decimal. *)
Definition numberedSlug (baseSlug : string) (counter : nat) : string :=
  (baseSlug ++ "-" ++ NilEmpty.string_of_uint (Nat.to_uint counter))%string.

(** [posts.some(post => post.slug === slug && post.id !== excludeId)].
    The function reads the id and the slug of every stored post; [posts] is
    the array of these pairs, since [Post] does not carry the slug.  An
    [excludeId] left out is [None], which no id equals. *)
Definition slugTaken (posts : list (string * string)) (excludeId : option string)
    (slug : string) : bool :=
  existsb (fun post =>
             (snd post =? slug)%string
             && negb (match excludeId with
                      | Some e => (fst post =? e)%string
                      | None => false
                      end)) posts.

(** The [while] loop, entered with the slug to try and the counter; the
    fuel bounds the number of slugs tried. *)
Fixpoint uniqueSlugLoop (fuel : nat) (posts : list (string * string))
    (excludeId : option string) (baseSlug slug : string) (counter : nat) : option string :=
  match fuel with
  | O => None
  | S fuel' =>
      if slugTaken posts excludeId slug
      then uniqueSlugLoop fuel' posts excludeId baseSlug
             (numberedSlug baseSlug counter) (S counter)
      else Some slug
  end.

(** One slug more than there are posts is enough to try. *)
Definition ensureUniqueSlug (posts : list (string * string)) (baseSlug : string)
    (excludeId : option string) : option string :=
  uniqueSlugLoop (S (List.length posts)) posts excludeId baseSlug baseSlug 1.

(** *** [calculateReadingTime] and [calculateWordCount] *)

(** [Math.ceil(words / wordsPerMinute)] with 200 words per minute; [words]
    is the number of pieces of the split, empty pieces included. *)
Definition calculateReadingTime (content : string) : Z :=
  let wordsPerMinute := 200 in
  let words := Z.of_nat (List.length (split_whitespace content)) in
  Qceiling (inject_Z words / inject_Z wordsPerMinute).

Definition calculateWordCount (content : string) : Z :=
  Z.of_nat (List.length (filter (fun word => (0 <? String.length word)%nat)
                                (split_whitespace content))).

(** *** [deletePost] and [bulkDeletePost] *)

(** The flag returned and the array left in the store (nothing is written
    when no post has the id). *)
Definition deletePost (postId : string) (stored : list Post) : bool * list Post :=
  let filteredPosts := filter (fun post => negb (id post =? postId)%string) stored in
  if (List.length filteredPosts =? List.length stored)%nat then (false, stored)
  else (true, filteredPosts).

(** The callback of [posts.filter] in [bulkDeletePost] pushes the id of
    every post it keeps onto [failed]; the loop carries [failed] along. *)
Fixpoint bulkDeleteFilter (ids : list string) (posts : list Post) (failed : list string)
    : list Post * list string :=
  match posts with
  | [] => ([], failed)
  | post :: rest =>
      if arrayIncludes ids (id post) then bulkDeleteFilter ids rest failed
      else
        let (kept, failed') := bulkDeleteFilter ids rest (failed ++ [id post]) in
        (post :: kept, failed')
  end.

(** The array written, with [deleted] and [failed]. *)
Definition bulkDeletePost (ids : list string) (stored : list Post)
    : list Post * (Z * list string) :=
  let initialCount := Z.of_nat (List.length stored) in
  let (filteredPosts, failed) := bulkDeleteFilter ids stored [] in
  (filteredPosts, (initialCount - Z.of_nat (List.length filteredPosts), failed)).

(** *** The counters *)

Definition withLikeCount (v : Z) (p : Post) : Post :=
  {| id := id p; title := title p; content := content p; excerpt := excerpt p;
     author := author p; published := published p; publishedAt := publishedAt p;
     createdAt := createdAt p; updatedAt := updatedAt p; tags := tags p;
     category := category p; status := status p;
     scheduledPublishAt := scheduledPublishAt p; viewCount := viewCount p;
     likeCount := v; series := series p; relatedPosts := relatedPosts p |}.

(** [posts[index].field++] on the first post with the id: the flag
    returned and the array left in the store.  ([lastViewedAt], which
    [incrementViewCount] also sets, is not carried by [Post].) *)
Definition incrementAt (bump : Post -> Post) (postId : string) (stored : list Post)
    : bool * list Post :=
  match findIndex (fun post => (id post =? postId)%string) stored with
  | None => (false, stored)
  | Some index =>
      match nth_error stored index with
      | None => (false, stored)
      | Some post => (true, assign stored index (bump post))
      end
  end.

Definition incrementViewCount (postId : string) (stored : list Post) : bool * list Post :=
  incrementAt (fun post => Spec.withViewCount (viewCount post + 1) post) postId stored.

Definition incrementLikeCount (postId : string) (stored : list Post) : bool * list Post :=
  incrementAt (fun post => withLikeCount (likeCount post + 1) post) postId stored.

(** *** [getPostStats] *)

(** The statistics over the fields [Post] carries ([totalComments] and
    [averageReadingTime] read fields that are not carried).  The counts
    [published] and [archived] of the source are [publishedCount] and
    [archivedCount] here. *)
Record PostStats : Type := mkStats {
  total : Z;
  publishedCount : Z;
  drafts : Z;
  archivedCount : Z;
  totalViews : Z;
  totalLikes : Z
}.

Definition countWhere (pred : Post -> bool) (posts : list Post) : Z :=
  Z.of_nat (List.length (filter pred posts)).

Definition getPostStats (stored : list Post) : PostStats :=
  {| total := Z.of_nat (List.length stored);
     publishedCount := countWhere (fun p => Status_eqb (status p) published_status) stored;
     drafts := countWhere (fun p => Status_eqb (status p) draft) stored;
     archivedCount := countWhere (fun p => Status_eqb (status p) archived) stored;
     totalViews := fold_left (fun sum p => sum + viewCount p) stored 0;
     totalLikes := fold_left (fun sum p => sum + likeCount p) stored 0 |}.

(** *** [getUpcomingScheduledPosts] *)

(** The posts come from [readPosts], so the schedule that the filter
    compares with [now] and [futureTime] is the ISO text.  The comparator
    of the sort calls [getTime] on that text, which is no function: it
    raises TypeError when it is called, which an array of two posts or more
    makes the sort do. *)
Definition getUpcomingScheduledPosts (now hoursAhead : Z) (stored : list Post)
    : Completion (list Post) :=
  let futureTime := now + hoursAhead * 60 * 60 * 1000 in
  let upcoming :=
    filter (fun post =>
              Status_eqb (status post) published_status
              && negb (published post)
              && match scheduledPublishAt post with
                 | Some at_ =>
                     let text := toISOString at_ in
                     negb (String.length text =? 0)%nat
                     && textAboveDate text now && textAtMostDate text futureTime
                 | None => false
                 end) stored in
  match upcoming with
  | [] | [_] => Normal upcoming
  | _ => Abort TypeError
  end.

End Lib.

(** Notions used to state what these functions do. *)
Module LibSpec.
Import JS Posts Lib.

(** The code units a slug is made of: lower-case ASCII letters, digits,
    the underscore and the hyphen. *)
Definition isSlugChar (c : ascii) : bool :=
  let n := N_of_ascii c in
  (((48 <=? n) && (n <=? 57)) || ((97 <=? n) && (n <=? 122)) || (n =? 95) || (n =? 45))%N.

Fixpoint allChars (p : ascii -> bool) (s : string) : bool :=
  match s with
  | EmptyString => true
  | String c s' => p c && allChars p s'
  end.

(** No hyphen right after a hyphen (or at the front, when [afterHyphen]
    is set at the start) and none at the end. *)
Fixpoint hyphensApart (afterHyphen : bool) (s : string) : bool :=
  match s with
  | EmptyString => negb afterHyphen
  | String c s' =>
      if isHyphen c then negb afterHyphen && hyphensApart true s'
      else hyphensApart false s'
  end.

(** The same without the condition on the end. *)
Fixpoint hyphensSingle (afterHyphen : bool) (s : string) : bool :=
  match s with
  | EmptyString => true
  | String c s' =>
      if isHyphen c then negb afterHyphen && hyphensSingle true s'
      else hyphensSingle false s'
  end.

(** A code unit that [generateSlug] keeps after lowering the case. *)
Definition keptChar (c : ascii) : bool :=
  (isWordChar c || isWhiteSpace c || isHyphen c) && Ascii.eqb (lowerChar c) c.

(** The number of empty pieces in an array of strings. *)
Definition emptyPieces (l : list string) : nat :=
  List.length (filter (fun word => negb (0 <? String.length word)%nat) l).

Definition wellFormedSlug (s : string) : bool :=
  allChars isSlugChar s
  && match s with
     | EmptyString => true
     | _ => hyphensApart true s
     end.

(** The slugs [ensureUniqueSlug] tries, in order: the base slug, then the
    numbered ones. *)
Definition candidateSlug (baseSlug : string) (k : nat) : string :=
  match k with
  | O => baseSlug
  | S _ => numberedSlug baseSlug k
  end.

(** The sum of a counter over the stored posts. *)
Fixpoint sumOf (f : Post -> Z) (l : list Post) : Z :=
  match l with
  | [] => 0
  | p :: l' => f p + sumOf f l'
  end.

(** The filters [f] with [{ offset, limit }] set. *)
Definition withPage (offset limit : Z) (f : PostFilters.t) : PostFilters.t :=
  PostFilters.mk (PostFilters.published f) (PostFilters.author f) (PostFilters.category f)
    (PostFilters.tag f) (Some limit) (Some offset) (PostFilters.sortBy f)
    (PostFilters.sortOrder f) (PostFilters.status f) (PostFilters.series f)
    (PostFilters.dateFrom f) (PostFilters.dateTo f) (PostFilters.minViews f)
    (PostFilters.search f) (PostFilters.excludeIds f).

(** The record [p] with another body. *)
Definition withContent (body : string) (p : Post) : Post :=
  {| id := id p; title := title p; content := body; excerpt := excerpt p;
     author := author p; published := published p; publishedAt := publishedAt p;
     createdAt := createdAt p; updatedAt := updatedAt p; tags := tags p;
     category := category p; status := status p;
     scheduledPublishAt := scheduledPublishAt p; viewCount := viewCount p;
     likeCount := likeCount p; series := series p; relatedPosts := relatedPosts p |}.

(** A request for a post scheduled at [at_], and an update of the title,
    for the witnesses. *)
Definition scheduledRequest (at_ : Z) : CreatePostRequest.t :=
  CreatePostRequest.mk "Launch notes" "Soon." "Soon." "ann" None None None
    (Some published_status) (Some at_) None None.

Definition retitle : UpdatePostRequest.t :=
  UpdatePostRequest.mk (Some "Closures, revisited") None None None None None None None None
    None None.

End LibSpec.
(* ------------------------------------------------------------------ *)
(** ** Facts about the runtime *)

Module JSFacts.
Import JS.

Lemma relativeIndex_range (len i : Z) : 0 <= len -> 0 <= relativeIndex len i <= len.
Proof.
  intros Hlen. unfold relativeIndex.
  destruct (i <? 0) eqn:Hi; [apply Z.ltb_lt in Hi | apply Z.ltb_ge in Hi]; lia.
Qed.

Lemma In_firstn {A} (n : nat) (l : list A) (x : A) : In x (firstn n l) -> In x l.
Proof.
  revert l. induction n as [|n IH]; intros [|y l]; simpl; try tauto.
  intros [->|H]; [now left | right; now apply IH].
Qed.

Lemma In_skipn {A} (n : nat) (l : list A) (x : A) : In x (skipn n l) -> In x l.
Proof.
  revert l. induction n as [|n IH]; intros [|y l]; simpl; try tauto.
  intros H. right. now apply IH.
Qed.

Lemma In_slice {A} (l : list A) (start stop : Z) (x : A) :
  In x (slice l start stop) -> In x l.
Proof.
  unfold slice. intros H.
  apply In_firstn in H. now apply In_skipn in H.
Qed.

Lemma length_slice_le {A} (l : list A) (start stop : Z) :
  (List.length (slice l start stop) <= Z.to_nat (relativeIndex (Z.of_nat (List.length l)) stop
                                              - relativeIndex (Z.of_nat (List.length l)) start))%nat.
Proof. unfold slice. apply firstn_le_length. Qed.

(** A window of [n >= 0] places holds at most [n] elements, wherever it
    starts. *)
Lemma length_slice_window {A} (l : list A) (start n : Z) :
  0 <= n -> Z.of_nat (List.length (slice l start (start + n))) <= n.
Proof.
  intros Hn. pose proof (length_slice_le l start (start + n)) as H.
  set (len := Z.of_nat (List.length l)) in *.
  assert (0 <= len) by (subst len; lia).
  unfold relativeIndex in H.
  destruct (start + n <? 0) eqn:E1; destruct (start <? 0) eqn:E2;
    try apply Z.ltb_lt in E1; try apply Z.ltb_ge in E1;
    try apply Z.ltb_lt in E2; try apply Z.ltb_ge in E2; lia.
Qed.

Lemma length_slice_prefix {A} (l : list A) (n : Z) :
  0 <= n -> Z.of_nat (List.length (slice l 0 n)) <= n.
Proof. intros Hn. apply (length_slice_window l 0 n Hn). Qed.

Section Sorting.
Context {A : Type} (after : A -> A -> bool).

Lemma In_insert (x y : A) (l : list A) : In y (insert after x l) <-> y = x \/ In y l.
Proof.
  induction l as [|z l IH]; simpl.
  - intuition.
  - destruct (after x z); simpl; rewrite ?IH; intuition.
Qed.

Lemma In_sort (y : A) (l : list A) : In y (sort after l) <-> In y l.
Proof.
  induction l as [|x l IH]; simpl.
  - tauto.
  - rewrite In_insert, IH. intuition.
Qed.

Lemma length_insert (x : A) (l : list A) :
  List.length (insert after x l) = S (List.length l).
Proof.
  induction l as [|z l IH]; simpl; [reflexivity|].
  destruct (after x z); simpl; congruence.
Qed.

Lemma length_sort (l : list A) : List.length (sort after l) = List.length l.
Proof.
  induction l as [|x l IH]; simpl; [reflexivity|].
  rewrite length_insert. congruence.
Qed.

(** The comparator orders by a key: whenever [a] has to come after [b],
    [b] need not come after [a], and "need not come after" composes. *)
Hypothesis after_asym : forall a b, after a b = true -> after b a = false.
Hypothesis after_trans :
  forall a b c, after a b = false -> after b c = false -> after a c = false.

Lemma insert_sorted (x : A) (l : list A) :
  StronglySorted (notAfter after) l -> StronglySorted (notAfter after) (insert after x l).
Proof.
  induction 1 as [|y l Hs IH Hall]; simpl.
  - constructor; constructor.
  - destruct (after x y) eqn:E.
    + constructor; [exact IH|].
      apply Forall_forall. intros z Hz. apply In_insert in Hz as [->|Hz].
      * now apply after_asym.
      * rewrite Forall_forall in Hall. now apply Hall.
    + constructor; [now constructor|].
      constructor; [exact E|].
      rewrite Forall_forall in *. intros z Hz.
      apply after_trans with y; [exact E | now apply Hall].
Qed.

Lemma sort_sorted (l : list A) : StronglySorted (notAfter after) (sort after l).
Proof.
  induction l as [|x l IH]; simpl; [constructor | now apply insert_sorted].
Qed.
End Sorting.

Lemma StronglySorted_skipn {A} (R : A -> A -> Prop) (n : nat) (l : list A) :
  StronglySorted R l -> StronglySorted R (skipn n l).
Proof.
  revert l. induction n as [|n IH]; intros l H; simpl; [exact H|].
  destruct l; [constructor|]. apply IH. now inversion H.
Qed.

Lemma StronglySorted_firstn {A} (R : A -> A -> Prop) (n : nat) (l : list A) :
  StronglySorted R l -> StronglySorted R (firstn n l).
Proof.
  revert l. induction n as [|n IH]; intros l H; simpl; [constructor|].
  destruct l as [|x l]; [constructor|].
  inversion H as [|? ? Hs Hall]; subst. constructor; [now apply IH|].
  rewrite Forall_forall in *. intros y Hy. apply Hall. now apply In_firstn in Hy.
Qed.

Lemma StronglySorted_slice {A} (R : A -> A -> Prop) (l : list A) (start stop : Z) :
  StronglySorted R l -> StronglySorted R (slice l start stop).
Proof.
  intros H. unfold slice. now apply StronglySorted_firstn, StronglySorted_skipn.
Qed.

Lemma StronglySorted_map {A B} (f : A -> B) (R : B -> B -> Prop) (l : list A) :
  StronglySorted (fun a b => R (f a) (f b)) l -> StronglySorted R (map f l).
Proof.
  induction 1 as [|x l Hs IH Hall]; simpl; constructor; [exact IH|].
  rewrite Forall_forall in *. intros y Hy.
  apply in_map_iff in Hy as (z & <- & Hz). now apply Hall.
Qed.

Lemma StronglySorted_weaken {A} (R R' : A -> A -> Prop) (l : list A) :
  (forall a b, In a l -> In b l -> R a b -> R' a b) ->
  StronglySorted R l -> StronglySorted R' l.
Proof.
  intros HR H. induction H as [|x l Hs IH Hall]; constructor.
  - apply IH. intros a b Ha Hb. apply HR; now right.
  - rewrite Forall_forall in *. intros y Hy.
    apply HR; [now left | now right | now apply Hall].
Qed.

(** [mapM] succeeds with the image of every element, in order. *)
Lemma mapM_Normal {A B} (f : A -> Completion B) (l : list A) (out : list B) :
  mapM f l = Normal out -> Forall2 (fun a b => f a = Normal b) l out.
Proof.
  revert out. induction l as [|a l IH]; simpl; intros out H.
  - inversion H. constructor.
  - destruct (f a) as [b|e] eqn:Ea; simpl in H; [|discriminate].
    destruct (mapM f l) as [bs|e] eqn:El; simpl in H; [|discriminate].
    inversion H; subst. constructor; [exact Ea | now apply IH].
Qed.

Lemma mapM_total {A B} (f : A -> Completion B) (l : list A) :
  (forall a, In a l -> exists b, f a = Normal b) -> exists out, mapM f l = Normal out.
Proof.
  induction l as [|a l IH]; simpl; intros H.
  - now exists [].
  - destruct (H a) as [b Hb]; [now left|].
    destruct IH as [bs Hbs]; [intros; apply H; now right|].
    rewrite Hb, Hbs. simpl. now exists (b :: bs).
Qed.

(** *** Trimming, lower case and the tokens of a query *)

Lemma isWhiteSpace_lowerChar (c : ascii) : isWhiteSpace (lowerChar c) = isWhiteSpace c.
Proof.
  destruct c as [b0 b1 b2 b3 b4 b5 b6 b7].
  destruct b0, b1, b2, b3, b4, b5, b6, b7; reflexivity.
Qed.

Lemma trimStart_toLowerCase (s : string) :
  trimStart (toLowerCase s) = toLowerCase (trimStart s).
Proof.
  induction s as [|c s IH]; simpl; [reflexivity|].
  rewrite isWhiteSpace_lowerChar. destruct (isWhiteSpace c); [exact IH | reflexivity].
Qed.

Lemma trimEnd_toLowerCase (s : string) :
  trimEnd (toLowerCase s) = toLowerCase (trimEnd s).
Proof.
  induction s as [|c s IH]; simpl; [reflexivity|].
  rewrite IH, isWhiteSpace_lowerChar.
  destruct (trimEnd s); simpl; [destruct (isWhiteSpace c)|]; reflexivity.
Qed.

Lemma trim_toLowerCase (s : string) : trim (toLowerCase s) = toLowerCase (trim s).
Proof. unfold trim. now rewrite trimStart_toLowerCase, trimEnd_toLowerCase. Qed.

(** A trimmed string is empty or starts with a code unit that is not
    white space. *)
Lemma trimStart_head (s : string) :
  match trimStart s with
  | EmptyString => True
  | String c _ => isWhiteSpace c = false
  end.
Proof.
  induction s as [|c s IH]; simpl; [exact I|].
  destruct (isWhiteSpace c) eqn:E; [exact IH | exact E].
Qed.

Lemma trimEnd_head (c : ascii) (s : string) :
  isWhiteSpace c = false -> exists r, trimEnd (String c s) = String c r.
Proof.
  intros H. simpl. rewrite H. destruct (trimEnd s); eauto.
Qed.

Lemma trim_head (s : string) :
  match trim s with
  | EmptyString => True
  | String c _ => isWhiteSpace c = false
  end.
Proof.
  unfold trim. pose proof (trimStart_head s) as H.
  destruct (trimStart s) as [|c r]; [exact I|].
  destruct (trimEnd_head c r H) as [r' ->]. exact H.
Qed.

Lemma trimEnd_empty (s : string) : trimEnd s = EmptyString -> forall c r, s = String c r ->
  isWhiteSpace c = true /\ trimEnd r = EmptyString.
Proof.
  intros H c r ->. simpl in H.
  destruct (trimEnd r); [|discriminate].
  destruct (isWhiteSpace c); [now split | discriminate].
Qed.

(** *** Numbers *)

Lemma scaled_ordered (n d e : Z) :
  0 < n -> 0 < d -> e <= Z.log2 n - Z.log2 d - 1 ->
  0 < snd (scaled n d e) <= fst (scaled n d e).
Proof.
  intros Hn Hd He.
  destruct (Z.log2_spec n Hn) as [Hn1 _]. destruct (Z.log2_spec d Hd) as [_ Hd2].
  pose proof (Z.log2_nonneg n) as Hln. pose proof (Z.log2_nonneg d) as Hld.
  unfold scaled. destruct (0 <=? e) eqn:E; simpl.
  - apply Z.leb_le in E.
    assert (Hp : 0 < 2 ^ e) by (apply Z.pow_pos_nonneg; lia).
    split; [nia|].
    assert (H : 2 ^ Z.succ (Z.log2 d) * 2 ^ e <= 2 ^ Z.log2 n).
    { rewrite <- Z.pow_add_r by lia. apply Z.pow_le_mono_r; lia. }
    nia.
  - apply Z.leb_gt in E.
    assert (Hp : 0 < 2 ^ (- e)) by (apply Z.pow_pos_nonneg; lia).
    split; [lia|].
    assert (H : 2 ^ Z.succ (Z.log2 d) <= 2 ^ Z.log2 n * 2 ^ (- e)).
    { rewrite <- Z.pow_add_r by lia. apply Z.pow_le_mono_r; lia. }
    nia.
Qed.

Lemma roundHalfEven_positive (a b : Z) : 0 < b <= a -> 0 < roundHalfEven a b.
Proof.
  intros H. unfold roundHalfEven.
  assert (Hq : 0 < a / b) by (apply Z.div_str_pos; lia).
  destruct (2 * (a mod b) ?= b); [destruct (Z.even (a / b))| |]; lia.
Qed.

Lemma binade_le (n d : Z) : binade n d <= Z.log2 n - Z.log2 d.
Proof.
  unfold binade. destruct (scaled n d (Z.log2 n - Z.log2 d)) as [a b].
  destruct (b <=? a); lia.
Qed.

Lemma roundPositive_positive (n d : Z) : 0 < n -> 0 < d -> (0 < roundPositive n d)%Q.
Proof.
  intros Hn Hd. unfold roundPositive.
  pose proof (binade_le n d) as Hb.
  pose proof (scaled_ordered n d (binade n d - 52) Hn Hd ltac:(lia)) as Hs.
  destruct (scaled n d (binade n d - 52)) as [a b]. simpl in Hs.
  pose proof (roundHalfEven_positive a b Hs) as Hm.
  rewrite Qred_correct.
  destruct (0 <=? binade n d - 52) eqn:E.
  - apply Z.leb_le in E.
    assert (Hp : 0 < 2 ^ (binade n d - 52)) by (apply Z.pow_pos_nonneg; lia).
    change 0%Q with (inject_Z 0). rewrite <- Zlt_Qlt. nia.
  - unfold Qlt. simpl. lia.
Qed.

(** Rounding keeps the sign, so the sign of a difference of two numbers is
    the sign of the exact difference. *)
Lemma double_positive (x : Q) : Qlt_bool 0 (double x) = Qlt_bool 0 x.
Proof.
  assert (Hiff : forall a b : Q, Qlt_bool a b = true <-> (a < b)%Q).
  { intros a b. unfold Qlt_bool. rewrite negb_true_iff. split; intros H.
    - apply Qnot_le_lt. intros Hle. apply Qle_bool_iff in Hle. congruence.
    - destruct (Qle_bool b a) eqn:E; [|reflexivity].
      apply Qle_bool_iff in E. exfalso. now apply (Qlt_not_le a b). }
  destruct x as [n d]. unfold double. simpl Qnum. simpl Qden.
  destruct n as [|n|n].
  - reflexivity.
  - pose proof (roundPositive_positive (Zpos n) (Zpos d) eq_refl eq_refl) as H.
    apply Hiff in H. rewrite H. symmetry. apply Hiff. reflexivity.
  - pose proof (roundPositive_positive (Zpos n) (Zpos d) eq_refl eq_refl) as H.
    destruct (Qlt_bool 0 (- roundPositive (Zpos n) (Zpos d))) eqn:E.
    + apply Hiff in E. exfalso. lra.
    + symmetry. destruct (Qlt_bool 0 (Zneg n # d)) eqn:E'; [|reflexivity].
      apply Hiff in E'. unfold Qlt in E'. simpl in E'. lia.
Qed.

(** *** Dates as text *)

Lemma digitChar_digit (n : Z) : exists v, digit 10 (digitChar n) = Some v.
Proof.
  unfold digitChar.
  destruct (Z.to_nat (n mod 10)) as [|[|[|[|[|[|[|[|[|k]]]]]]]]]; vm_compute; eauto.
Qed.

(** A decimal digit is no white space, sign, letter or point. *)
Lemma digit_plain (c : ascii) (v : Z) :
  digit 10 c = Some v ->
  isWhiteSpace c = false /\
  (c =? "+")%char = false /\ (c =? "-")%char = false /\ (c =? "I")%char = false /\
  (c =? "x")%char = false /\ (c =? "X")%char = false /\ (c =? "o")%char = false /\
  (c =? "O")%char = false /\ (c =? "b")%char = false /\ (c =? "B")%char = false.
Proof.
  destruct c as [b0 b1 b2 b3 b4 b5 b6 b7].
  destruct b0, b1, b2, b3, b4, b5, b6, b7; vm_compute; intros H;
    try discriminate H; repeat split.
Qed.

Lemma append_assoc (a b c : string) : ((a ++ b) ++ c = a ++ (b ++ c))%string.
Proof. induction a as [|x a IH]; simpl; [reflexivity | now rewrite IH]. Qed.

Lemma decimalDigits_head (w : nat) (n : Z) (tail : string) :
  exists m rest, (decimalDigits (S w) n ++ tail)%string = String (digitChar m) rest.
Proof.
  revert n tail. induction w as [|w IH]; intros n tail.
  - exists n, tail. reflexivity.
  - change (decimalDigits (S (S w)) n)
      with (decimalDigits (S w) (n / 10) ++ String (digitChar n) EmptyString)%string.
    rewrite append_assoc. apply IH.
Qed.

Lemma decimalPrefix_digits (w : nat) :
  forall (n : Z) (tail : string) (value : Z) (count : nat),
  exists value',
    decimalPrefix (decimalDigits w n ++ tail) value count
    = decimalPrefix tail value' (count + w).
Proof.
  induction w as [|w IH]; intros n tail value count.
  - exists value. simpl. now rewrite Nat.add_0_r.
  - cbn [decimalDigits]. rewrite append_assoc.
    destruct (IH (n / 10) (String (digitChar n) EmptyString ++ tail)%string value count)
      as [v1 H1].
    rewrite H1. cbn [append decimalPrefix].
    destruct (digitChar_digit n) as [v Hv]. rewrite Hv.
    eexists. now rewrite Nat.add_succ_r.
Qed.

(** Digits followed by a hyphen are no numeric literal. *)
Lemma unsignedDecimal_digits_hyphen (w : nat) (n : Z) (tail : string) :
  unsignedDecimal (decimalDigits (S w) n ++ String "-" tail) = NaN.
Proof.
  unfold unsignedDecimal.
  destruct (decimalDigits_head w n (String "-" tail)) as (m & rest & Hhead).
  destruct (digitChar_digit m) as [v Hv].
  destruct (digit_plain _ _ Hv) as (_ & _ & _ & HI & _).
  assert (E : ((decimalDigits (S w) n ++ String "-" tail) =? "Infinity")%string = false).
  { rewrite Hhead. cbn [String.eqb]. now rewrite HI. }
  rewrite E.
  destruct (decimalPrefix_digits (S w) n (String "-" tail) 0 0%nat) as [v' Hp].
  rewrite Hp. cbn. reflexivity.
Qed.

Lemma trimEnd_last (s : string) (c : ascii) :
  isWhiteSpace c = false ->
  trimEnd (s ++ String c EmptyString) = (s ++ String c EmptyString)%string.
Proof.
  intros Hc. induction s as [|x s IH]; cbn [append trimEnd].
  - now rewrite Hc.
  - rewrite IH. destruct s; reflexivity.
Qed.

(** The ISO text of a date is no numeric literal: its number is NaN. *)
Lemma stringToNumber_toISOString (t : Z) : stringToNumber (toISOString t) = NaN.
Proof.
  unfold toISOString.
  destruct (civilFromDays (t / 86400000)) as [[y m] d].
  set (time := (decimalDigits 2 m ++ "-" ++ decimalDigits 2 d ++ "T"
                ++ decimalDigits 2 (t mod 86400000 / 3600000) ++ ":"
                ++ decimalDigits 2 (t mod 86400000 / 60000 mod 60) ++ ":"
                ++ decimalDigits 2 (t mod 86400000 / 1000 mod 60) ++ "."
                ++ decimalDigits 3 (t mod 86400000 mod 1000))%string).
  assert (Hend : forall year : string,
             trimEnd (year ++ "-" ++ time ++ "Z") = (year ++ "-" ++ time ++ "Z")%string).
  { intros year.
    replace (year ++ "-" ++ time ++ "Z")%string with ((year ++ "-" ++ time) ++ "Z")%string
      by now rewrite !append_assoc.
    now apply trimEnd_last. }
  assert (Hcut : forall year : string,
             (year ++ "-" ++ time ++ "Z" = year ++ String "-" (time ++ "Z"))%string)
    by reflexivity.
  unfold stringToNumber, trim.
  change (decimalDigits 2 m ++ "-" ++ decimalDigits 2 d ++ "T"
          ++ decimalDigits 2 (t mod 86400000 / 3600000) ++ ":"
          ++ decimalDigits 2 (t mod 86400000 / 60000 mod 60) ++ ":"
          ++ decimalDigits 2 (t mod 86400000 / 1000 mod 60) ++ "."
          ++ decimalDigits 3 (t mod 86400000 mod 1000) ++ "Z")%string
    with (time ++ "Z")%string.
  destruct ((0 <=? y) && (y <=? 9999)).
  - pose proof (unsignedDecimal_digits_hyphen 3 y (time ++ "Z")) as Hnan.
    destruct (decimalDigits_head 3 y (String "-" (time ++ "Z"))) as (m1 & rest & Hhead).
    destruct (decimalDigits_head 2 (y / 10) (String (digitChar y) EmptyString
                                              ++ String "-" (time ++ "Z")))
      as (m0 & rest0 & Hhead0).
    rewrite Hcut in *.
    assert (Hsecond : exists m2 rest2, rest = String (digitChar m2) rest2).
    { cbn [decimalDigits append] in Hhead. injection Hhead as _ <-. eauto. }
    destruct Hsecond as (m2 & rest2 & ->).
    destruct (digitChar_digit m1) as [v1 Hv1]. destruct (digitChar_digit m2) as [v2 Hv2].
    destruct (digit_plain _ _ Hv1) as (Hw & Hplus & Hminus & _).
    destruct (digit_plain _ _ Hv2) as (_ & _ & _ & _ & Hx & HX & Ho & HO & Hb & HB).
    rewrite Hhead in Hnan |- *.
    assert (Htrim : trimStart (String (digitChar m1) (String (digitChar m2) rest2))
                    = String (digitChar m1) (String (digitChar m2) rest2))
      by (cbn [trimStart]; now rewrite Hw).
    rewrite Htrim. rewrite <- Hhead, <- Hcut, Hend, Hcut, Hhead.
    unfold radixPrefix. rewrite Hx, HX, Ho, HO, Hb, HB. cbn [orb].
    rewrite Hplus, Hminus.
    destruct (negb _); exact Hnan.
  - set (sign := if 0 <=? y then "+"%char else "-"%char).
    pose proof (unsignedDecimal_digits_hyphen 5 (Z.abs y) (time ++ "Z")) as Hnan.
    destruct (decimalDigits_head 5 (Z.abs y) (String "-" (time ++ "Z")))
      as (m1 & rest & Hhead).
    assert (Hsign : isWhiteSpace sign = false /\ (sign =? "0")%char = false)
      by (unfold sign; destruct (0 <=? y); split; reflexivity).
    destruct Hsign as [Hw H0].
    change (String sign (decimalDigits 6 (Z.abs y)) ++ "-" ++ time ++ "Z")%string
      with (String sign (decimalDigits 6 (Z.abs y) ++ "-" ++ time ++ "Z"))%string.
    cbn [trimStart]. rewrite Hw.
    change (String sign (decimalDigits 6 (Z.abs y) ++ "-" ++ time ++ "Z"))%string
      with (String sign (decimalDigits 6 (Z.abs y)) ++ "-" ++ time ++ "Z")%string.
    rewrite Hend.
    change (String sign (decimalDigits 6 (Z.abs y)) ++ "-" ++ time ++ "Z")%string
      with (String sign (decimalDigits 6 (Z.abs y) ++ String "-" (time ++ "Z")))%string.
    rewrite Hhead in Hnan |- *.
    unfold radixPrefix. rewrite H0. cbn [negb].
    rewrite Hnan. unfold sign. destruct (0 <=? y); reflexivity.
Qed.

Lemma textAtMostDate_toISOString (t now : Z) : textAtMostDate (toISOString t) now = false.
Proof. unfold textAtMostDate. now rewrite stringToNumber_toISOString. Qed.

Lemma textAboveDate_toISOString (t now : Z) : textAboveDate (toISOString t) now = false.
Proof. unfold textAboveDate. now rewrite stringToNumber_toISOString. Qed.

End JSFacts.

(* ------------------------------------------------------------------ *)
(** ** Facts about the store *)

Module PostsFacts.
Import JS Posts JSFacts.

Lemma whenSome_incl {K A} (o : option K) (f : K -> list A -> list A) (l : list A) :
  (forall k l', incl (f k l') l') -> incl (whenSome o f l) l.
Proof. intros H. destruct o; simpl; [apply H | apply incl_refl]. Qed.

Lemma whenString_incl {A} (o : option string) (f : string -> list A -> list A) (l : list A) :
  (forall k l', incl (f k l') l') -> incl (whenString o f l) l.
Proof.
  intros H. destruct o as [s|]; simpl; [|apply incl_refl].
  destruct (String.length s =? 0)%nat; [apply incl_refl | apply H].
Qed.

Create HintDb store.
#[local] Hint Resolve incl_filter incl_refl : store.

(** Filtering only removes posts. *)
Lemma applyFilters_incl (filters : PostFilters.t) (stored : list Post) :
  incl (applyFilters filters stored) stored.
Proof.
  unfold applyFilters.
  repeat (eapply incl_tran;
          [ first [ apply whenSome_incl | apply whenString_incl ];
            intros; auto with store | ]);
    try apply incl_refl.
  destruct (0 <? List.length k)%nat; auto with store.
Qed.

Lemma In_paginate (filters : PostFilters.t) (posts : list Post) (p : Post) :
  In p (paginate filters posts) -> In p posts.
Proof. apply In_slice. Qed.

Lemma In_sortPosts (filters : PostFilters.t) (posts : list Post) (p : Post) :
  In p (sortPosts filters posts) <-> In p posts.
Proof. apply In_sort. Qed.

Lemma In_getPosts_filtered (filters : PostFilters.t) (stored : list Post) (p : Post) :
  In p (getPosts filters stored) -> In p (applyFilters filters stored).
Proof.
  unfold getPosts. intros H. apply In_paginate in H. now apply In_sortPosts in H.
Qed.

Lemma In_getPosts_stored (filters : PostFilters.t) (stored : list Post) (p : Post) :
  In p (getPosts filters stored) -> In p stored.
Proof. intros H. now apply applyFilters_incl with filters, In_getPosts_filtered. Qed.

(** What [{ published: true, excludeIds: [postId] }] lets through. *)
Lemma applyFilters_publishedExcept (postId : string) (limit : option Z)
    (stored : list Post) (p : Post) :
  In p (applyFilters (publishedExcept postId limit) stored) ->
  published p = true /\ id p <> postId.
Proof.
  unfold applyFilters, publishedExcept; simpl. intros H.
  apply filter_In in H as [H Hid]. apply filter_In in H as [_ Hpub].
  split.
  - destruct (published p); [reflexivity | discriminate].
  - intros E. unfold arrayIncludes in Hid. simpl in Hid.
    rewrite E, String.eqb_refl in Hid. discriminate.
Qed.

Lemma getPostById_None (postId : string) (stored : list Post) :
  (forall p, In p stored -> id p <> postId) -> getPostById postId stored = None.
Proof.
  intros H. unfold getPostById.
  destruct (find _ stored) as [p|] eqn:E; [|reflexivity].
  apply find_some in E as [Hin Heq]. apply String.eqb_eq in Heq.
  now apply H in Hin.
Qed.

(** The two ways out of the curated phase. *)
Lemma curatedPhase_inl (postId : string) (limit : Z) (post : Post) (stored filtered : list Post) :
  curatedPhase postId limit post stored = inl filtered ->
  (forall p, In p filtered -> In p (getPosts (publishedExcept postId None) stored)) /\
  (0 <= limit -> Z.of_nat (List.length filtered) <= limit).
Proof.
  unfold curatedPhase.
  destruct (relatedPosts post) as [[|i ids]|]; try discriminate.
  destruct (0 <? _)%nat; try discriminate.
  destruct (limit <=? _) eqn:E; try discriminate.
  intros H. injection H as <-. split.
  - intros p Hp. apply In_slice in Hp. now apply filter_In in Hp.
  - apply length_slice_prefix.
Qed.

Lemma curatedPhase_inr (postId : string) (limit limit' : Z) (post : Post)
    (stored filtered : list Post) :
  curatedPhase postId limit post stored = inr (filtered, limit') ->
  limit' <= limit /\ (0 <= limit -> 0 <= limit').
Proof.
  unfold curatedPhase.
  destruct (relatedPosts post) as [[|i ids]|];
    try (intros H; injection H as <- <-; lia).
  destruct (0 <? _)%nat; try (intros H; injection H as <- <-; lia).
  match goal with |- context [limit <=? ?x] => set (n := x) in * end.
  assert (Hn : 0 <= n) by (subst n; lia).
  destruct (limit <=? n) eqn:E; try discriminate.
  apply Z.leb_gt in E. intros Heq. injection Heq as _ <-. lia.
Qed.

Lemma In_automaticPhase (now : Z) (postId : string) (limit : Z) (post : Post)
    (stored : list Post) (p : Post) :
  In p (automaticPhase now postId limit post stored) ->
  In p (getPosts (publishedExcept postId (Some (limit * 3))) stored).
Proof.
  unfold automaticPhase. intros H.
  apply in_map_iff in H as ([q s] & <- & H). simpl.
  apply In_slice in H. apply In_sort in H.
  apply in_map_iff in H as (r & Hr & Hin). now inversion Hr; subst.
Qed.

Lemma length_automaticPhase (now : Z) (postId : string) (limit : Z) (post : Post)
    (stored : list Post) :
  0 <= limit -> Z.of_nat (List.length (automaticPhase now postId limit post stored)) <= limit.
Proof.
  intros H. unfold automaticPhase. rewrite length_map. now apply length_slice_prefix.
Qed.

(** *** Publication flag and publication date *)

Import Spec.

Lemma createPost_publishedHasDate (now : Z) (newId : string) (data : CreatePostRequest.t)
    (stored : list Post) :
  publishedHasDate (fst (createPost now newId data stored)).
Proof.
  unfold publishedHasDate, createPost; simpl.
  intros ->. discriminate.
Qed.

Lemma createPost_keeps_publishedHasDate (now : Z) (newId : string)
    (data : CreatePostRequest.t) (stored : list Post) :
  Forall publishedHasDate stored ->
  Forall publishedHasDate (snd (createPost now newId data stored)).
Proof.
  intros H. unfold createPost at 1; simpl.
  apply Forall_app. split; [exact H|].
  constructor; [|constructor].
  apply (createPost_publishedHasDate now newId data stored).
Qed.

Lemma publishIfDue_publishedHasDate (now : Z) (post : Post) :
  publishedHasDate post -> publishedHasDate (fst (publishIfDue now post)).
Proof.
  unfold publishIfDue. intros H.
  destruct (scheduledPublishAt post) as [t|]; [|exact H].
  destruct (_ && _); [|exact H].
  unfold publishedHasDate; simpl. discriminate.
Qed.

Lemma publishScheduledPosts_keeps_publishedHasDate (now : Z) (stored : list Post) :
  Forall publishedHasDate stored ->
  Forall publishedHasDate (fst (publishScheduledPosts now stored)).
Proof.
  unfold publishScheduledPosts; simpl. rewrite map_map.
  induction 1; simpl; constructor; auto using publishIfDue_publishedHasDate.
Qed.

(** [updatePost] keeps the implication for every request but one kind: the
    request that sets [published] to true and leaves the post with a status
    other than 'published'. *)
Lemma updatedPost_publishedHasDate (now : Z) (existingPost : Post)
    (data : UpdatePostRequest.t) :
  publishedHasDate existingPost ->
  (UpdatePostRequest.published data = Some true ->
   orElse (UpdatePostRequest.status data) (status existingPost) = published_status) ->
  publishedHasDate (updatedPost now existingPost data).
Proof.
  unfold publishedHasDate, updatedPost. intros Hinv Hreq.
  destruct (Status_eqb (orElse _ _) published_status) eqn:Es.
  - destruct (UpdatePostRequest.scheduledPublishAt data) as [[t|]|]; simpl;
      try destruct (t <=? now); simpl; discriminate.
  - assert (Hpub : orElse (UpdatePostRequest.published data) (published existingPost) = true ->
                   publishedAt existingPost <> None).
    { destruct (UpdatePostRequest.published data) as [[|]|]; simpl.
      - intros _. rewrite Hreq in Es by reflexivity. discriminate.
      - discriminate.
      - exact Hinv. }
    destruct (UpdatePostRequest.scheduledPublishAt data) as [[t|]|];
      rewrite ?andb_false_r; simpl; exact Hpub.
Qed.

Lemma Forall_assign {A} (P : A -> Prop) (l : list A) (i : nat) (v : A) :
  Forall P l -> P v -> Forall P (assign l i v).
Proof.
  intros Hl Hv. revert i. induction Hl as [|x l Hx Hl IH]; intros i; simpl.
  - constructor.
  - destruct i; constructor; auto.
Qed.

Lemma updatePost_keeps_publishedHasDate (now : Z) (postId : string)
    (data : UpdatePostRequest.t) (stored stored' : list Post) (post : Post) :
  Forall publishedHasDate stored ->
  (UpdatePostRequest.published data = Some true ->
   UpdatePostRequest.status data = Some published_status) ->
  updatePost now postId data stored = Some (post, stored') ->
  publishedHasDate post /\ Forall publishedHasDate stored'.
Proof.
  intros Hinv Hreq. unfold updatePost.
  destruct (findIndex _ stored) as [index|]; [|discriminate].
  destruct (nth_error stored index) as [existingPost|] eqn:En; [|discriminate].
  intros H. injection H as <- <-.
  assert (Hp : publishedHasDate (updatedPost now existingPost data)).
  { apply updatedPost_publishedHasDate.
    - rewrite Forall_forall in Hinv. apply Hinv. now apply nth_error_In in En.
    - intros Hpub. now rewrite (Hreq Hpub). }
  split; [exact Hp | now apply Forall_assign].
Qed.

Lemma bulkUpdateLoop_keeps_publishedHasDate (clock : nat -> Z) (ids : list string)
    (updates : UpdatePostRequest.t) (posts : list Post) :
  (UpdatePostRequest.published updates = Some true ->
   UpdatePostRequest.status updates = Some published_status) ->
  forall (i : nat) (stored : list Post) (updated : nat) (failed : list string),
  Forall publishedHasDate stored ->
  Forall publishedHasDate (fst (bulkUpdateLoop clock ids updates i posts stored updated failed)).
Proof.
  intros Hreq. induction posts as [|post rest IH]; intros i stored updated failed Hinv; simpl.
  - exact Hinv.
  - destruct (arrayIncludes ids (id post)); [|now apply IH].
    destruct (updatePost (clock i) (id post) updates stored) as [[p stored']|] eqn:E.
    + apply IH. eapply updatePost_keeps_publishedHasDate; eauto.
    + now apply IH.
Qed.

Lemma bulkPublishPosts_keeps_publishedHasDate (clock : nat -> Z) (ids : list string)
    (publish : bool) (stored : list Post) :
  Forall publishedHasDate stored ->
  Forall publishedHasDate (fst (bulkPublishPosts clock ids publish stored)).
Proof.
  intros H. unfold bulkPublishPosts, bulkUpdatePosts.
  apply bulkUpdateLoop_keeps_publishedHasDate; [|exact H].
  simpl. intros E. injection E as ->. reflexivity.
Qed.

End PostsFacts.

(* ------------------------------------------------------------------ *)
(** ** Facts about patterns *)

Module RegExpFacts.
Import JS RegExp Spec.

Lemma parseQuantifier_plain (atom : Node) (s : string) :
  plain s = true -> parseQuantifier atom s = (atom, s).
Proof.
  destruct s as [|c s]; [reflexivity|]. simpl. intros H.
  apply andb_prop in H as [H _].
  destruct c as [b0 b1 b2 b3 b4 b5 b6 b7].
  destruct b0, b1, b2, b3, b4, b5, b6, b7; try reflexivity; discriminate H.
Qed.

(** One step of the descent on a code unit that is no syntax character. *)
Lemma parse_pattern_character (fuel : nat) (c : ascii) (s : string) :
  syntaxCharacter c = false ->
  parse (S fuel) false (String c s) =
    (let (term, s'') := parseQuantifier (Char c) s in
     match parse fuel false s'' with
     | Parsed n rest => Parsed (Seq term n) rest
     | r => r
     end).
Proof.
  intros H. destruct c as [b0 b1 b2 b3 b4 b5 b6 b7].
  destruct b0, b1, b2, b3, b4, b5, b6, b7; try discriminate H; reflexivity.
Qed.

Lemma parse_alternative_plain (s : string) :
  plain s = true ->
  forall fuel, (String.length s < fuel)%nat -> parse fuel false s = Parsed (literal s) EmptyString.
Proof.
  induction s as [|c s IH]; intros Hp [|fuel] Hlen; simpl in Hlen; try lia.
  - reflexivity.
  - simpl in Hp. apply andb_prop in Hp as [Hc Hs]. apply negb_true_iff in Hc.
    rewrite (parse_pattern_character fuel c s Hc), (parseQuantifier_plain _ s Hs).
    rewrite (IH Hs fuel) by lia. reflexivity.
Qed.

(** A token without syntax characters always compiles, to its literal. *)
Lemma compile_plain (src : string) : plain src = true -> compile src = Normal (literal src).
Proof.
  intros H. unfold compile.
  replace (2 * String.length src + 2)%nat with (S (S (2 * String.length src))) by lia.
  change (parse (S (S (2 * String.length src))) true src)
    with (match parse (S (2 * String.length src)) false src with
          | Parsed a (String "|" s') =>
              match parse (S (2 * String.length src)) true s' with
              | Parsed b rest => Parsed (Alt a b) rest
              | r => r
              end
          | r => r
          end).
  rewrite (parse_alternative_plain src H) by lia. reflexivity.
Qed.

Lemma matchCount_plain (text src : string) :
  plain src = true ->
  matchCount text src = Normal (matchAll (S (String.length text)) (literal src) 0 text).
Proof. intros H. unfold matchCount. now rewrite (compile_plain src H). Qed.

(** *** The literal pattern counts occurrences *)

Lemma matchNode_literal (t : string) :
  forall (i : nat) (s : string) (k : Continuation),
  matchNode (literal t) (i, s) k =
    if String.prefix t s then k ((i + String.length t)%nat, dropChars (String.length t) s)
    else None.
Proof.
  induction t as [|c t IH]; intros i s k; simpl.
  - rewrite Nat.add_0_r. now destruct s.
  - destruct s as [|b s]; [reflexivity|]. simpl.
    destruct (ascii_dec c b) as [->|Hne].
    + rewrite Ascii.eqb_refl, IH. now rewrite Nat.add_succ_r.
    + apply Ascii.eqb_neq in Hne. now rewrite Hne.
Qed.

Lemma exec_literal (t : string) (i : nat) (s : string) :
  exec (literal t) i s =
    if String.prefix t s
    then Some (i, ((i + String.length t)%nat, dropChars (String.length t) s))
    else match s with
         | EmptyString => None
         | String _ s' => exec (literal t) (S i) s'
         end.
Proof.
  destruct s as [|b s]; simpl exec; rewrite matchNode_literal;
    now destruct (String.prefix t _).
Qed.

Lemma length_dropChars (n : nat) (s : string) :
  (String.length (dropChars n s) <= String.length s - n)%nat.
Proof.
  revert s. induction n as [|n IH]; intros [|c s]; simpl; try lia. apply IH.
Qed.

Lemma prefix_nonempty (t s : string) :
  t <> EmptyString -> String.prefix t s = true -> s <> EmptyString.
Proof. destruct t; [congruence|]. destruct s; [discriminate | discriminate]. Qed.

(** With enough fuel on both sides, the loop of [match] over the literal
    of [t] counts the occurrences of [t]. *)
Lemma matchAll_literal (t : string) :
  t <> EmptyString ->
  forall (n : nat) (s : string) (i f g : nat),
  (String.length s <= n)%nat -> (String.length s < f)%nat -> (String.length s < g)%nat ->
  matchAll f (literal t) i s = occurrencesFrom g t s.
Proof.
  intros Ht.
  assert (Hlen : (0 < String.length t)%nat) by (destruct t; [congruence | simpl; lia]).
  induction n as [|n IH]; intros s i [|f] [|g] Hn Hf Hg; try lia;
    cbn [matchAll occurrencesFrom]; rewrite exec_literal;
    destruct (String.prefix t s) eqn:E.
  - apply prefix_nonempty in E; [|exact Ht]. destruct s; [congruence | simpl in Hn; lia].
  - destruct s; [reflexivity | simpl in Hn; lia].
  - assert (Hs : s <> EmptyString) by now apply prefix_nonempty with t.
    pose proof (length_dropChars (String.length t) s) as Hd.
    assert (Hpos : (0 < String.length s)%nat) by (destruct s; [congruence | simpl; lia]).
    replace (Nat.eqb (i + String.length t) i) with false
      by (symmetry; apply Nat.eqb_neq; lia).
    f_equal. apply IH; lia.
  - destruct s as [|b s]; [reflexivity|]. simpl in Hn, Hf, Hg.
    rewrite <- (IH s (S i) (S f) g) by lia. reflexivity.
Qed.

(** For a token without syntax characters, the number of matches of the
    compiled pattern is the number of non-overlapping occurrences. *)
Lemma matchCount_occurrences (text src : string) :
  plain src = true -> src <> EmptyString ->
  matchCount text src = Normal (occurrences src text).
Proof.
  intros Hp Hne. rewrite (matchCount_plain text src Hp). f_equal.
  apply (matchAll_literal src Hne (String.length text)); lia.
Qed.

End RegExpFacts.

(* ------------------------------------------------------------------ *)
(** ** Facts about [searchPosts] *)

Module SearchFacts.
Import JS Posts Spec JSFacts PostsFacts.

(** *** Blank queries *)

Lemma blank_trimStart (s : string) : blank s = true -> trimStart s = EmptyString.
Proof.
  induction s as [|c s IH]; simpl; [reflexivity|].
  intros H. apply andb_prop in H as [-> H]. now apply IH.
Qed.

Lemma trimEnd_blank (s : string) : trimEnd s = EmptyString -> blank s = true.
Proof.
  induction s as [|c s IH]; [reflexivity|]. intros H.
  destruct (trimEnd_empty _ H c s eq_refl) as [Hc Hs].
  simpl. rewrite Hc. now apply IH.
Qed.

Lemma trimStart_blank (s : string) : blank (trimStart s) = true -> blank s = true.
Proof.
  induction s as [|c s IH]; simpl; [reflexivity|].
  destruct (isWhiteSpace c) eqn:E; simpl.
  - exact IH.
  - now rewrite E.
Qed.

Lemma trim_empty_iff (s : string) : trim s = EmptyString <-> blank s = true.
Proof.
  unfold trim. split; intros H.
  - now apply trimStart_blank, trimEnd_blank.
  - now rewrite blank_trimStart.
Qed.

Lemma toLowerCase_empty (s : string) : toLowerCase s = EmptyString -> s = EmptyString.
Proof. destruct s; [reflexivity | discriminate]. Qed.

(** A query leaves no token exactly when it is blank. *)
Lemma searchTermsOf_empty_iff (query : string) :
  searchTermsOf query = [] <-> blank query = true.
Proof.
  unfold searchTermsOf. rewrite trim_toLowerCase. split; intros H.
  - apply trim_empty_iff. pose proof (trim_head query) as Hh.
    destruct (trim query) as [|c r]; [reflexivity|exfalso].
    simpl in H. unfold split_whitespace in H. simpl in H.
    rewrite isWhiteSpace_lowerChar, Hh in H.
    destruct (splitWs false (toLowerCase r)); simpl in H; discriminate.
  - apply trim_empty_iff in H. rewrite H. reflexivity.
Qed.

Lemma searchPostsWith_blank (matchCount : RegExp.Engine) (now : Z) (query : string)
    (filters : PostFilters.t) (stored : list Post) :
  blank query = true ->
  searchPostsWith matchCount now query filters stored = Normal (getPosts filters stored).
Proof.
  intros H. unfold searchPostsWith.
  apply trim_empty_iff in H. rewrite H. simpl.
  now rewrite orb_true_r.
Qed.

Lemma searchPosts_blank (now : Z) (query : string) (filters : PostFilters.t)
    (stored : list Post) :
  blank query = true -> searchPosts now query filters stored = Normal (getPosts filters stored).
Proof. apply searchPostsWith_blank. Qed.

(** A query with a token passes both guards of [searchPosts]. *)
Lemma searchPostsWith_scored (matchCount : RegExp.Engine) (now : Z) (query : string)
    (filters : PostFilters.t) (stored : list Post) :
  searchTermsOf query <> [] ->
  searchPostsWith matchCount now query filters stored =
    (scoredPosts <- mapM (fun post =>
                            score <- scorePostWith matchCount now (searchTermsOf query) post ;;
                            Normal (post, score))
                         (getPosts (PostFilters.withoutSearch filters) stored) ;;
     let relevantPosts :=
       map fst (sort (fun a b => Qlt_bool 0%Q (compareScored a b))
                     (filter (fun item => Qlt_bool 0%Q (snd item)) scoredPosts)) in
     Normal (match PostFilters.limit filters with
             | Some l => if l =? 0 then relevantPosts else slice relevantPosts 0 l
             | None => relevantPosts
             end)).
Proof.
  intros Hterms. unfold searchPostsWith.
  assert (Hblank : blank query = false).
  { destruct (blank query) eqn:E; [|reflexivity].
    now apply searchTermsOf_empty_iff in E. }
  assert (Htrim : trim query <> EmptyString).
  { intros E. apply trim_empty_iff in E. congruence. }
  assert (Hq : (String.length query =? 0)%nat = false).
  { destruct query; [discriminate Hblank | reflexivity]. }
  assert (Ht : (String.length (trim query) =? 0)%nat = false).
  { destruct (trim query); [congruence | reflexivity]. }
  rewrite Hq, Ht. simpl.
  destruct (searchTermsOf query) as [|t ts] eqn:E; [congruence|]. simpl.
  destruct (mapM _ _) as [scored|e]; simpl; [|reflexivity].
  destruct (PostFilters.limit filters) as [l|]; [destruct (l =? 0)|]; reflexivity.
Qed.

Lemma searchPosts_scored (now : Z) (query : string) (filters : PostFilters.t)
    (stored : list Post) :
  searchTermsOf query <> [] ->
  searchPosts now query filters stored =
    (scoredPosts <- mapM (fun post => score <- scorePost now (searchTermsOf query) post ;;
                                      Normal (post, score))
                         (getPosts (PostFilters.withoutSearch filters) stored) ;;
     let relevantPosts :=
       map fst (sort (fun a b => Qlt_bool 0%Q (compareScored a b))
                     (filter (fun item => Qlt_bool 0%Q (snd item)) scoredPosts)) in
     Normal (match PostFilters.limit filters with
             | Some l => if l =? 0 then relevantPosts else slice relevantPosts 0 l
             | None => relevantPosts
             end)).
Proof. apply searchPostsWith_scored. Qed.

(** *** The listing order of [getPosts] *)

Lemma sortPosts_sorted (filters : PostFilters.t) (posts : list Post) :
  StronglySorted (listedBefore filters) (sortPosts filters posts).
Proof.
  unfold sortPosts, listedBefore.
  set (sortBy := match PostFilters.sortBy filters with Some f => f | None => _ end).
  set (sortOrder := match PostFilters.sortOrder filters with Some o => o | None => _ end).
  eapply StronglySorted_weaken;
    [|apply (sort_sorted (fun a b => 0 <? comparePosts sortBy sortOrder a b))].
  - intros a b _ _ H. unfold notAfter in H. now apply Z.ltb_ge in H.
  - intros a b H. apply Z.ltb_lt in H. apply Z.ltb_ge.
    unfold comparePosts in *. destruct sortOrder; lia.
  - intros a b c H1 H2. apply Z.ltb_ge in H1, H2. apply Z.ltb_ge.
    unfold comparePosts in *. destruct sortOrder; lia.
Qed.

Lemma getPosts_sorted (filters : PostFilters.t) (stored : list Post) :
  StronglySorted (listedBefore filters) (getPosts filters stored).
Proof. apply StronglySorted_slice, sortPosts_sorted. Qed.

(** *** The relevance order *)

Lemma Qlt_bool_iff (a b : Q) : Qlt_bool a b = true <-> (a < b)%Q.
Proof.
  unfold Qlt_bool. rewrite negb_true_iff. split; intros H.
  - apply Qnot_le_lt. intros Hle. apply Qle_bool_iff in Hle. congruence.
  - destruct (Qle_bool b a) eqn:E; [|reflexivity].
    apply Qle_bool_iff in E. exfalso. now apply (Qlt_not_le a b).
Qed.

(** When the comparator of the relevance sort is positive: [a] has the
    lower score, or the same score and the older effective date.  The
    comparator returns a rounded difference, which has the sign of the
    exact one. *)
Lemma compareScored_positive (a b : Post * Q) :
  Qlt_bool 0%Q (compareScored a b) = true <->
  (snd a < snd b)%Q \/ ((snd a == snd b)%Q /\ effectiveDate (fst a) < effectiveDate (fst b)).
Proof.
  unfold compareScored, effectiveDate.
  destruct (Qeq_bool (snd b) (snd a)) eqn:E; simpl; rewrite double_positive, Qlt_bool_iff.
  - apply Qeq_bool_iff in E. rewrite <- (Zlt_Qlt 0). split.
    + intros H. right. split; [now symmetry | lia].
    + intros [H|[_ H]]; [lra | lia].
  - apply Qeq_bool_neq in E. split.
    + intros H. left. lra.
    + intros [H|[H _]]; [lra | exfalso; apply E; now symmetry].
Qed.

Lemma compareScored_asym (a b : Post * Q) :
  Qlt_bool 0%Q (compareScored a b) = true -> Qlt_bool 0%Q (compareScored b a) = false.
Proof.
  intros H. destruct (Qlt_bool 0%Q (compareScored b a)) eqn:E; [exfalso|reflexivity].
  apply compareScored_positive in H, E.
  destruct H as [H|[H1 H2]], E as [E|[E1 E2]]; try lra; lia.
Qed.

Lemma compareScored_not_positive (a b : Post * Q) :
  Qlt_bool 0%Q (compareScored a b) = false <->
  (snd b < snd a)%Q \/ ((snd a == snd b)%Q /\ effectiveDate (fst b) <= effectiveDate (fst a)).
Proof.
  split.
  - intros H.
    destruct (Q_dec (snd a) (snd b)) as [[Hlt|Hgt]|Heq].
    + exfalso. assert (E : Qlt_bool 0%Q (compareScored a b) = true)
        by (apply compareScored_positive; now left). congruence.
    + now left.
    + right. split; [exact Heq|].
      destruct (Z_lt_le_dec (effectiveDate (fst a)) (effectiveDate (fst b))) as [Hd|Hd];
        [exfalso|exact Hd].
      assert (E : Qlt_bool 0%Q (compareScored a b) = true)
        by (apply compareScored_positive; now right). congruence.
  - intros H. destruct (Qlt_bool 0%Q (compareScored a b)) eqn:E; [exfalso|reflexivity].
    apply compareScored_positive in E.
    destruct H as [H|[H1 H2]], E as [E|[E1 E2]]; try lra; lia.
Qed.

Lemma compareScored_trans (a b c : Post * Q) :
  Qlt_bool 0%Q (compareScored a b) = false ->
  Qlt_bool 0%Q (compareScored b c) = false ->
  Qlt_bool 0%Q (compareScored a c) = false.
Proof.
  rewrite !compareScored_not_positive.
  intros [H|[H1 H2]] [E|[E1 E2]].
  - left. lra.
  - left. lra.
  - left. lra.
  - right. split; [lra | lia].
Qed.

(** Every pair that the scoring pass returns holds a candidate and its
    score. *)
Lemma scored_items (matchCount : RegExp.Engine) (now : Z) (searchTerms : list string)
    (posts : list Post) (scoredPosts : list (Post * Q)) :
  mapM (fun post => score <- scorePostWith matchCount now searchTerms post ;;
                    Normal (post, score)) posts
    = Normal scoredPosts ->
  forall item, In item scoredPosts ->
    In (fst item) posts /\ scorePostWith matchCount now searchTerms (fst item) = Normal (snd item).
Proof.
  intros H. apply mapM_Normal in H.
  induction H as [|post item posts scored Hitem _ IH]; intros it Hin; [destruct Hin|].
  destruct Hin as [<-|Hin].
  - destruct (scorePostWith matchCount now searchTerms post) as [s|e] eqn:Es;
      simpl in Hitem; [|discriminate].
    injection Hitem as <-. simpl. split; [now left | exact Es].
  - destruct (IH it Hin) as [H1 H2]. split; [now right | exact H2].
Qed.

(** The ranked list built from the scored pairs: its members are
    candidates, and it is in relevance order. *)
Lemma ranked_list (matchCount : RegExp.Engine) (now : Z) (searchTerms : list string)
    (posts : list Post) (scoredPosts : list (Post * Q)) :
  mapM (fun post => score <- scorePostWith matchCount now searchTerms post ;;
                    Normal (post, score)) posts
    = Normal scoredPosts ->
  let relevantPosts :=
    map fst (sort (fun a b => Qlt_bool 0%Q (compareScored a b))
                  (filter (fun item => Qlt_bool 0%Q (snd item)) scoredPosts)) in
  (forall p, In p relevantPosts -> In p posts) /\
  StronglySorted (rankedBefore matchCount now searchTerms) relevantPosts.
Proof.
  intros H relevantPosts. pose proof (scored_items _ _ _ _ _ H) as Hitems.
  assert (Hin : forall item,
             In item (sort (fun a b => Qlt_bool 0%Q (compareScored a b))
                           (filter (fun item => Qlt_bool 0%Q (snd item)) scoredPosts)) ->
             In item scoredPosts).
  { intros item Hi. apply In_sort in Hi. now apply filter_In in Hi. }
  split.
  - intros p Hp. apply in_map_iff in Hp as (item & <- & Hi).
    now apply Hitems, Hin.
  - apply StronglySorted_map.
    eapply StronglySorted_weaken;
      [|apply (sort_sorted _ compareScored_asym compareScored_trans)].
    intros a b Ha Hb Hab. unfold notAfter in Hab.
    apply compareScored_not_positive in Hab.
    exists (snd a), (snd b).
    split; [now apply Hitems, Hin|]. split; [now apply Hitems, Hin|]. exact Hab.
Qed.

(** Every post a scored run returns is one of the candidates. *)
Lemma searchPosts_members
    (now : Z) (query : string) (filters : PostFilters.t) (stored out : list Post) :
  searchTermsOf query <> [] ->
  searchPosts now query filters stored = Normal out ->
  forall p, In p out -> In p (getPosts (PostFilters.withoutSearch filters) stored).
Proof.
  intros Hterms. rewrite (searchPosts_scored now query filters stored Hterms).
  destruct (mapM _ _) as [scoredPosts|e] eqn:E; simpl; [|discriminate].
  destruct (ranked_list _ _ _ _ _ E) as [Hin _].
  intros H p Hp. injection H as <-. apply Hin.
  destruct (PostFilters.limit filters) as [l|]; [destruct (l =? 0)|]; try exact Hp.
  now apply In_slice in Hp.
Qed.

(** *** Queries without pattern syntax *)

Lemma foldM_total {A S} (f : S -> A -> Completion S) (l : list A) :
  (forall s a, In a l -> exists s', f s a = Normal s') ->
  forall s, exists s', foldM f s l = Normal s'.
Proof.
  induction l as [|a l IH]; intros H s; simpl.
  - now exists s.
  - destruct (H s a) as [s1 H1]; [now left|]. rewrite H1. simpl.
    apply IH. intros s2 b Hb. apply H. now right.
Qed.

Lemma scoreTerm_plain (titleLower excerptLower contentLower categoryLower authorLower : string)
    (tagsLower : list string) (score : Z) (term : string) :
  plain term = true ->
  exists score',
    scoreTerm RegExp.matchCount titleLower excerptLower contentLower categoryLower authorLower
      tagsLower score term = Normal score'.
Proof.
  intros H. unfold scoreTerm.
  destruct (includes excerptLower term), (includes contentLower term);
    rewrite ?(RegExpFacts.matchCount_plain _ term H); simpl; eauto.
Qed.

Lemma scorePost_plain (now : Z) (searchTerms : list string) (post : Post) :
  (forall term, In term searchTerms -> plain term = true) ->
  exists score, scorePost now searchTerms post = Normal score.
Proof.
  intros H. unfold scorePost, scorePostWith.
  match goal with
  | |- context [foldM ?f ?s0 ?l] =>
      assert (Hfold : exists t, foldM f s0 l = Normal t)
  end.
  { apply foldM_total. intros s a Ha. apply scoreTerm_plain. now apply H. }
  destruct Hfold as [t Ht]. rewrite Ht. simpl. eauto.
Qed.

(** [searchPosts] returns a list whenever no token of the query holds a
    syntax character of patterns. *)
Lemma searchPosts_plain (now : Z) (query : string) (filters : PostFilters.t)
    (stored : list Post) :
  (forall term, In term (searchTermsOf query) -> plain term = true) ->
  exists out, searchPosts now query filters stored = Normal out.
Proof.
  intros H. destruct (searchTermsOf query) as [|t ts] eqn:E.
  - apply searchTermsOf_empty_iff in E. rewrite (searchPosts_blank _ _ _ _ E). eauto.
  - rewrite searchPosts_scored by congruence. rewrite E.
    destruct (mapM_total
                (fun post => score <- scorePost now (t :: ts) post ;; Normal (post, score))
                (getPosts (PostFilters.withoutSearch filters) stored)) as [scored Hs].
    + intros post _. destruct (scorePost_plain now (t :: ts) post H) as [s Hsc].
      rewrite Hsc. simpl. eauto.
    + rewrite Hs. simpl. eauto.
Qed.

(** *** Records that no token matches *)

Lemma prefix_refl (s : string) : String.prefix s s = true.
Proof.
  induction s as [|c s IH]; [reflexivity|]. simpl.
  destruct (ascii_dec c c); [exact IH | congruence].
Qed.

Lemma includes_prefix (s t : string) : String.prefix t s = true -> includes s t = true.
Proof. intros H. destruct s; cbn [includes]; now rewrite H. Qed.

Lemma includes_refl (s : string) : includes s s = true.
Proof. apply includes_prefix, prefix_refl. Qed.

Lemma not_included (s t : string) :
  includes s t = false ->
  (s =? t)%string = false /\ startsWith s t = false.
Proof.
  intros H. split.
  - destruct (String.eqb_spec s t) as [->|]; [|reflexivity].
    now rewrite includes_refl in H.
  - unfold startsWith. destruct (String.prefix t s) eqn:E; [|reflexivity].
    now rewrite (includes_prefix s t E) in H.
Qed.

(** A token that occurs in no field leaves the running score as it is,
    whatever the engine: no pattern is built. *)
Lemma scoreTerm_unmatched (matchCount : RegExp.Engine) (p : Post) (score : Z) (term : string) :
  mentions term p = false ->
  scoreTerm matchCount (toLowerCase (title p)) (toLowerCase (excerpt p))
    (toLowerCase (content p)) (toLowerCase (category p)) (toLowerCase (author p))
    (map toLowerCase (tags p)) score term = Normal score.
Proof.
  unfold mentions. intros H.
  repeat (apply orb_false_elim in H; destruct H as [H ?]).
  unfold scoreTerm.
  destruct (not_included _ _ H) as [-> ->].
  match goal with Hc : includes (toLowerCase (category p)) term = false |- _ =>
    destruct (not_included _ _ Hc) as [-> _]; rewrite Hc end.
  repeat match goal with Hf : includes _ term = false |- _ => rewrite Hf; clear Hf end.
  assert (Htags : filter (fun tag => (tag =? term)%string || includes tag term)
                         (map toLowerCase (tags p)) = []).
  { match goal with Ht : existsb _ (tags p) = false |- _ => revert Ht end.
    induction (tags p) as [|tag l IH]; simpl; [reflexivity|].
    intros Ht. apply orb_false_elim in Ht as [Htag Hl].
    destruct (not_included _ _ Htag) as [-> _]. rewrite Htag. simpl. now apply IH. }
  rewrite Htags. simpl. f_equal. lia.
Qed.

(** The score of a record that no token matches is made of the two
    bonuses alone: 5 points when the record is recent, and the popularity
    bonus above 100 views. *)
Lemma scorePost_unmatched (matchCount : RegExp.Engine) (now : Z) (searchTerms : list string)
    (p : Post) :
  (forall term, In term searchTerms -> mentions term p = false) ->
  scorePostWith matchCount now searchTerms p =
    Normal (withPopularity (if Qlt_bool (daysSince now (effectiveDate p)) 30 then 5 else 0)
                           (viewCount p)).
Proof.
  intros H. unfold scorePostWith.
  assert (Hfold : forall s,
             foldM (scoreTerm matchCount (toLowerCase (title p)) (toLowerCase (excerpt p))
                      (toLowerCase (content p)) (toLowerCase (category p))
                      (toLowerCase (author p)) (map toLowerCase (tags p))) s searchTerms
               = Normal s).
  { induction searchTerms as [|term l IH]; intros s; simpl; [reflexivity|].
    rewrite (scoreTerm_unmatched matchCount p s term) by (apply H; now left). simpl.
    apply IH. intros t Ht. apply H. now right. }
  rewrite Hfold. simpl.
  unfold withPopularity, effectiveDate, orDate.
  destruct (publishedAt p); destruct (Qlt_bool _ 30), (100 <? viewCount p); reflexivity.
Qed.

(** *** What the excerpt adds *)

Lemma includes_empty_text (term : string) :
  term <> EmptyString -> includes EmptyString term = false.
Proof. destruct term; [congruence | reflexivity]. Qed.

(** For a token without syntax characters that the excerpt contains, the
    statements of the excerpt add 10 and 2 for every occurrence: the score
    after the token is the score the same record would get with an empty
    excerpt, plus 10 + 2 x occurrences. *)
Lemma scoreTerm_excerpt (titleLower excerptLower contentLower categoryLower authorLower : string)
    (tagsLower : list string) (score : Z) (term : string) :
  plain term = true -> term <> EmptyString ->
  includes excerptLower term = true ->
  exists s0 : Z,
    scoreTerm RegExp.matchCount titleLower EmptyString contentLower categoryLower authorLower
      tagsLower score term = Normal s0 /\
    scoreTerm RegExp.matchCount titleLower excerptLower contentLower categoryLower authorLower
      tagsLower score term
    = Normal (s0 + 10 + 2 * Z.of_nat (occurrences term excerptLower)).
Proof.
  intros Hp Hne Hin. unfold scoreTerm.
  rewrite Hin, (includes_empty_text term Hne).
  rewrite (RegExpFacts.matchCount_occurrences excerptLower term Hp Hne).
  destruct (includes contentLower term);
    rewrite ?(RegExpFacts.matchCount_plain contentLower term Hp); cbn [bind];
    eexists; (split; [reflexivity|]); f_equal; lia.
Qed.

Lemma scorePost_excerpt (now : Z) (term : string) (p : Post) :
  plain term = true -> term <> EmptyString ->
  includes (toLowerCase (excerpt p)) term = true ->
  exists n0 : Z,
    scorePost now [term] (withExcerpt EmptyString p)
    = Normal (withPopularity n0 (viewCount p)) /\
    scorePost now [term] p
    = Normal (withPopularity
                (n0 + 10 + 2 * Z.of_nat (occurrences term (toLowerCase (excerpt p))))
                (viewCount p)).
Proof.
  intros Hp Hne Hin. unfold scorePost, scorePostWith, withExcerpt.
  cbn [title excerpt content category author tags publishedAt createdAt viewCount
       toLowerCase foldM].
  destruct (scoreTerm_excerpt (toLowerCase (title p)) (toLowerCase (excerpt p))
              (toLowerCase (content p)) (toLowerCase (category p)) (toLowerCase (author p))
              (map toLowerCase (tags p)) 0 term Hp Hne Hin) as (s0 & H0 & H1).
  rewrite H1, H0. cbn [bind]. unfold withPopularity.
  set (occ := Z.of_nat (occurrences term (toLowerCase (excerpt p)))).
  destruct (Qlt_bool _ 30%Q).
  - exists (s0 + 5). split; [reflexivity|].
    now replace (s0 + 5 + 10 + 2 * occ) with (s0 + 10 + 2 * occ + 5) by lia.
  - exists s0. split; reflexivity.
Qed.

(** *** What the content adds *)

(** For a token without syntax characters that the content contains, the
    statements of the content add 5 and one point for every occurrence
    up to ten. *)
Lemma scoreTerm_content (titleLower excerptLower contentLower categoryLower authorLower : string)
    (tagsLower : list string) (score : Z) (term : string) :
  plain term = true -> term <> EmptyString ->
  includes contentLower term = true ->
  exists s0 : Z,
    scoreTerm RegExp.matchCount titleLower excerptLower EmptyString categoryLower authorLower
      tagsLower score term = Normal s0 /\
    scoreTerm RegExp.matchCount titleLower excerptLower contentLower categoryLower authorLower
      tagsLower score term
    = Normal (s0 + (5 + Z.min (Z.of_nat (occurrences term contentLower)) 10)).
Proof.
  intros Hp Hne Hin. unfold scoreTerm.
  rewrite Hin, (includes_empty_text term Hne).
  rewrite (RegExpFacts.matchCount_occurrences contentLower term Hp Hne).
  destruct (includes excerptLower term);
    rewrite ?(RegExpFacts.matchCount_plain excerptLower term Hp); cbn [bind];
    eexists; (split; [reflexivity|]); f_equal; lia.
Qed.

End SearchFacts.

(* ------------------------------------------------------------------ *)
(** ** The claims of the specification *)

Module Claims.
Import JS Posts Spec Samples JSFacts PostsFacts SearchFacts.

(** *** Related posts *)

(** C1, at a store where the code departs from the claim.  Post "a"
    curates "b", which is valid, published and not "a" itself, and two
    related posts are asked for.  The curated phase finds [postB] and
    lowers the limit to 1, but the list returned is the automatic phase's
    alone: [postC], without the curated [postB]. *)
Theorem getRelatedPosts_loses_curated :
  curatedPhase "a" 2 postA library = inr ([postB], 1) /\
  getRelatedPosts now "a" 2 library = [postC] /\
  ~ In postB (getRelatedPosts now "a" 2 library).
Proof.
  assert (H : getRelatedPosts now "a" 2 library = [postC]) by (vm_compute; reflexivity).
  split; [vm_compute; reflexivity|]. split; [exact H|].
  rewrite H. intros [E|[]]. discriminate E.
Qed.

(** C10: whatever the store, the reference id and the (non-negative)
    limit, the list of related posts holds no post with the reference id
    and at most [limit] posts, and it is empty when no stored post has the
    reference id. *)
Theorem getRelatedPosts_excludes_self_within_limit
    (now : Z) (postId : string) (limit : Z) (stored : list Post) :
  0 <= limit ->
  (forall p, In p (getRelatedPosts now postId limit stored) -> id p <> postId) /\
  Z.of_nat (List.length (getRelatedPosts now postId limit stored)) <= limit /\
  ((forall p, In p stored -> id p <> postId) ->
   getRelatedPosts now postId limit stored = []).
Proof.
  intros Hlimit. unfold getRelatedPosts.
  split; [|split].
  - destruct (getPostById postId stored) as [post|]; [|intros p []].
    destruct (curatedPhase postId limit post stored) as [filtered|[filtered limit']] eqn:E;
      intros p Hp.
    + apply curatedPhase_inl in E as [Hin _].
      apply Hin, In_getPosts_filtered, applyFilters_publishedExcept in Hp. tauto.
    + apply In_automaticPhase, In_getPosts_filtered, applyFilters_publishedExcept in Hp.
      tauto.
  - destruct (getPostById postId stored) as [post|]; [|simpl; lia].
    destruct (curatedPhase postId limit post stored) as [filtered|[filtered limit']] eqn:E.
    + apply curatedPhase_inl in E as [_ Hlen]. now apply Hlen.
    + apply curatedPhase_inr in E as [Hle Hpos].
      pose proof (length_automaticPhase now postId limit' post stored (Hpos Hlimit)). lia.
  - intros Hnone. now rewrite getPostById_None.
Qed.

Lemma getRelatedPosts_excludes_self_within_limit_witness :
  (forall p, In p (getRelatedPosts now "a" 2 library) -> id p <> "a") /\
  Z.of_nat (List.length (getRelatedPosts now "a" 2 library)) <= 2 /\
  ((forall p, In p library -> id p <> "a") -> getRelatedPosts now "a" 2 library = []).
Proof.
  apply (getRelatedPosts_excludes_self_within_limit now "a" 2 library). lia.
Defined.

(** *** The operations that write the store *)

(** C6, at a request where the code departs from the claim.  The stored
    draft satisfies the implication; the update [{ published: true }] makes
    [updatePost] write and return a record with [published] true, the
    status 'draft' and no [publishedAt]. *)
Theorem updatePost_publishes_without_date :
  publishedHasDate draftPost /\
  exists post : Post,
    updatePost now "d" setPublished [draftPost] = Some (post, [post]) /\
    published post = true /\
    publishedAt post = None /\
    ~ publishedHasDate post.
Proof.
  split; [intros H; discriminate H|].
  eexists. split; [vm_compute; reflexivity|].
  split; [reflexivity|]. split; [reflexivity|].
  intros H. now apply H.
Qed.

(** *** The scoring of [searchPosts] *)

(** C2 as stated fails: with 50 views the score is the score with no
    views, where the claim grants min(50 / 100, 5) = 1/2. *)
Lemma no_popularity_bonus_at_50_views :
  exists s s0 : Q,
    scorePost now ["hello"] (withViewCount 50 greeting) = Normal s /\
    scorePost now ["hello"] (withViewCount 0 greeting) = Normal s0 /\
    ~ (s - s0 == Qmin (inject_Z 50 / 100) 5)%Q.
Proof.
  exists 12%Q, 12%Q. repeat split; try (vm_compute; reflexivity).
  vm_compute. discriminate.
Qed.

(** C2, amended: the popularity bonus is what separates the score of a
    record from the score of the same record without views.  Above 100
    views it is min(viewCount / 100, 5), the quotient and the sum being
    the numbers the code's arithmetic gives; up to 100 views there is
    none. *)
Theorem popularity_bonus_above_100_views
    (now : Z) (searchTerms : list string) (p : Post) (v : Z) (s0 : Q) :
  scorePost now searchTerms (withViewCount 0 p) = Normal s0 ->
  exists s : Q,
    scorePost now searchTerms (withViewCount v p) = Normal s /\
    (100 < v -> s = double (s0 + Qmin (double (inject_Z v / 100)) 5)) /\
    (v <= 100 -> s = s0).
Proof.
  unfold scorePost, scorePostWith, withViewCount.
  cbn [title excerpt content category author tags publishedAt createdAt viewCount].
  destruct (foldM _ 0 searchTerms) as [t|e]; cbn [bind]; [|discriminate].
  change (100 <? 0) with false. cbv iota.
  intros H. injection H as <-.
  eexists. split; [reflexivity|].
  split; intros Hv.
  - apply Z.ltb_lt in Hv. rewrite Hv. reflexivity.
  - apply Z.ltb_ge in Hv. rewrite Hv. reflexivity.
Qed.

Lemma popularity_bonus_above_100_views_witness :
  exists s : Q,
    scorePost now ["hello"] (withViewCount 250 greeting) = Normal s /\
    (100 < 250 -> s = double (12 + Qmin (double (inject_Z 250 / 100)) 5)) /\
    (250 <= 100 -> s = 12%Q).
Proof.
  apply (popularity_bonus_above_100_views now ["hello"] greeting 250 12%Q).
  vm_compute. reflexivity.
Defined.

(** The bonus in the arithmetic of the code.  With 101 views the score is
    the number nearest to 12 + 1.01, where 1.01 stands for the number
    nearest to 101 / 100; it is not the rational 13.01. *)
Example popularity_bonus_is_rounded :
  scorePost now ["hello"] (withViewCount 101 greeting)
  = Normal (double (12 + double (101 # 100))) /\
  ~ (double (12 + double (101 # 100)) == 12 + (101 # 100))%Q.
Proof. split; [vm_compute; reflexivity | vm_compute; discriminate]. Qed.

(** C3, at a record where the code departs from the claim.  The excerpt
    "Hello world" holds the token "hello" once; no other field holds it,
    the record is old and has no views.  The excerpt signal is the whole
    score: 12 points (10, and 2 for the one match) where the claim has 10. *)
Theorem excerpt_single_occurrence_scores_12 :
  RegExp.matchCount (toLowerCase (excerpt greeting)) "hello" = Normal 1%nat /\
  scorePost now ["hello"] greeting = Normal 12%Q /\
  scorePost now ["hello"] (withExcerpt EmptyString greeting) = Normal 0%Q.
Proof. repeat split; vm_compute; reflexivity. Qed.

(** C4, at queries where the code departs from the claim.  The token "("
    occurs in the excerpt of [calculus], so it is compiled as a pattern,
    and [new RegExp("(", 'g')] raises SyntaxError (unterminated group); so
    does the token "c++" (nothing to repeat) over the content of
    [cplusplus].  [searchPosts] ends with that exception. *)
Theorem searchPosts_throws_on_pattern_syntax :
  searchPosts now "(" PostFilters.empty [calculus] = Abort SyntaxError /\
  searchPosts now "C++" PostFilters.empty [cplusplus] = Abort SyntaxError.
Proof. split; vm_compute; reflexivity. Qed.

(** C5, at a record where the code departs from the claim.  No field of
    [reactGuide] holds the token "python", but the record was published
    the day before: the recency bonus alone gives it the score 5, and
    [searchPosts] returns it. *)
Theorem searchPosts_returns_unmatched_recent_record :
  mentions "python" reactGuide = false /\
  scorePost now ["python"] reactGuide = Normal 5%Q /\
  searchPosts now "python" PostFilters.empty [reactGuide] = Normal [reactGuide].
Proof. repeat split; vm_compute; reflexivity. Qed.

(** *** The result list of [searchPosts] *)

(** C8: for a query with at least one token, the list [searchPosts]
    returns is made of candidates (posts of [getPosts] for the filters
    without [search]) and is in relevance order: score descending, and
    effective date descending among equal scores.  The scores are the
    numbers the code computes; and the statement holds whatever the
    regular expression engine answers for the tokens, so for the patterns
    outside the module [RegExp] as well. *)
Theorem searchPosts_ranked_subset
    (matchCount : RegExp.Engine) (now : Z) (query : string) (filters : PostFilters.t)
    (stored out : list Post) :
  searchTermsOf query <> [] ->
  searchPostsWith matchCount now query filters stored = Normal out ->
  (forall p, In p out -> In p (getPosts (PostFilters.withoutSearch filters) stored)) /\
  StronglySorted (rankedBefore matchCount now (searchTermsOf query)) out.
Proof.
  intros Hterms. rewrite (searchPostsWith_scored matchCount now query filters stored Hterms).
  destruct (mapM _ _) as [scoredPosts|e] eqn:E; simpl; [|discriminate].
  destruct (ranked_list _ _ _ _ _ E) as [Hin Hsorted].
  intros H. injection H as <-.
  destruct (PostFilters.limit filters) as [l|]; [destruct (l =? 0)|];
    try (split; assumption).
  split.
  - intros p Hp. apply In_slice in Hp. now apply Hin.
  - now apply StronglySorted_slice.
Qed.

Lemma searchPosts_ranked_subset_witness :
  (forall p, In p [tallyOnce; tallyTwice] ->
             In p (getPosts (PostFilters.withoutSearch PostFilters.empty)
                            [tallyTwice; tallyOnce])) /\
  StronglySorted (rankedBefore RegExp.matchCount now (searchTermsOf "tally"))
                 [tallyOnce; tallyTwice].
Proof.
  apply (searchPosts_ranked_subset RegExp.matchCount now "tally" PostFilters.empty
           [tallyTwice; tallyOnce] [tallyOnce; tallyTwice]).
  - vm_compute. discriminate.
  - vm_compute. reflexivity.
Defined.

(** The scores behind that run.  [tallyOnce] has 6 points and 403 views,
    the newer [tallyTwice] 7 points and 303 views: the exact sums are both
    10.03, but the sums the code forms are 10.030000000000001 and 10.03,
    so the scores differ and the effective dates are not consulted. *)
Example searchPosts_orders_by_rounded_sums :
  scorePost now ["tally"] tallyOnce = Normal (double (6 + double (403 # 100))) /\
  scorePost now ["tally"] tallyTwice = Normal (double (7 + double (303 # 100))) /\
  (6 + (403 # 100) == 7 + (303 # 100))%Q /\
  (double (7 + double (303 # 100)) < double (6 + double (403 # 100)))%Q /\
  effectiveDate tallyOnce < effectiveDate tallyTwice /\
  searchPosts now "tally" PostFilters.empty [tallyTwice; tallyOnce]
  = Normal [tallyOnce; tallyTwice].
Proof. repeat split; vm_compute; reflexivity. Qed.

(** C9: for a query that is empty or all white space, or, which is the
    same, leaves no token, [searchPosts] returns what [getPosts] returns
    for the filters as given, and that list is in the listing order asked
    for (creation time, newest first, by default); no score is involved. *)
Theorem searchPosts_blank_query
    (now : Z) (query : string) (filters : PostFilters.t) (stored : list Post) :
  blank query = true \/ searchTermsOf query = [] ->
  (blank query = true <-> searchTermsOf query = []) /\
  searchPosts now query filters stored = Normal (getPosts filters stored) /\
  StronglySorted (listedBefore filters) (getPosts filters stored).
Proof.
  intros H.
  assert (Hblank : blank query = true).
  { destruct H as [H|H]; [exact H | now apply searchTermsOf_empty_iff]. }
  split; [symmetry; apply searchTermsOf_empty_iff|].
  split; [now apply searchPosts_blank | apply getPosts_sorted].
Qed.

Lemma searchPosts_blank_query_witness :
  (blank "   " = true <-> searchTermsOf "   " = []) /\
  searchPosts now "   " firstOnly library = Normal (getPosts firstOnly library) /\
  StronglySorted (listedBefore firstOnly) (getPosts firstOnly library).
Proof.
  apply (searchPosts_blank_query now "   " firstOnly library).
  left. reflexivity.
Defined.

(** C7: for a query with at least one token, the candidates that are
    scored are the page [getPosts] cuts, with the offset and limit of the
    filters, out of the filtered posts in listing order.  With a positive
    limit the page has at most [limit] posts; every post returned is on
    the page; and the ranked list is cut to [limit] once more. *)
Theorem searchPosts_scores_the_page
    (now : Z) (query : string) (filters : PostFilters.t) (stored : list Post) :
  searchTermsOf query <> [] ->
  let filtersWithoutSearch := PostFilters.withoutSearch filters in
  let listed := sortPosts filtersWithoutSearch (applyFilters filtersWithoutSearch stored) in
  let offset := orNumber (PostFilters.offset filters) 0 in
  let limit := orNumber (PostFilters.limit filters) (Z.of_nat (List.length listed)) in
  let page := slice listed offset (offset + limit) in
  StronglySorted (listedBefore filters) listed /\
  (forall n, PostFilters.limit filters = Some n -> 0 < n ->
             Z.of_nat (List.length page) <= n) /\
  searchPosts now query filters stored =
    (scoredPosts <- mapM (fun post => score <- scorePost now (searchTermsOf query) post ;;
                                      Normal (post, score)) page ;;
     let relevantPosts :=
       map fst (sort (fun a b => Qlt_bool 0%Q (compareScored a b))
                     (filter (fun item => Qlt_bool 0%Q (snd item)) scoredPosts)) in
     Normal (match PostFilters.limit filters with
             | Some n => if n =? 0 then relevantPosts else slice relevantPosts 0 n
             | None => relevantPosts
             end)) /\
  (forall out, searchPosts now query filters stored = Normal out ->
               forall p, In p out -> In p page).
Proof.
  intros Hterms filtersWithoutSearch listed offset limit page.
  assert (Hpage : getPosts filtersWithoutSearch stored = page) by reflexivity.
  split; [apply (sortPosts_sorted filtersWithoutSearch)|].
  split.
  - intros n Hn Hpos. subst page limit. rewrite Hn. unfold orNumber.
    destruct (n =? 0) eqn:E; [apply Z.eqb_eq in E; lia|].
    apply length_slice_window. lia.
  - split.
    + rewrite <- Hpage. now apply searchPosts_scored.
    + intros out Hout p Hp. rewrite <- Hpage.
      now apply (searchPosts_members now query filters stored out Hterms Hout).
Qed.

Lemma searchPosts_scores_the_page_witness :
  let filtersWithoutSearch := PostFilters.withoutSearch firstOnly in
  let listed := sortPosts filtersWithoutSearch (applyFilters filtersWithoutSearch library) in
  let offset := orNumber (PostFilters.offset firstOnly) 0 in
  let limit := orNumber (PostFilters.limit firstOnly) (Z.of_nat (List.length listed)) in
  let page := slice listed offset (offset + limit) in
  StronglySorted (listedBefore firstOnly) listed /\
  (forall n, PostFilters.limit firstOnly = Some n -> 0 < n ->
             Z.of_nat (List.length page) <= n) /\
  searchPosts now "typed" firstOnly library =
    (scoredPosts <- mapM (fun post => score <- scorePost now (searchTermsOf "typed") post ;;
                                      Normal (post, score)) page ;;
     let relevantPosts :=
       map fst (sort (fun a b => Qlt_bool 0%Q (compareScored a b))
                     (filter (fun item => Qlt_bool 0%Q (snd item)) scoredPosts)) in
     Normal (match PostFilters.limit firstOnly with
             | Some n => if n =? 0 then relevantPosts else slice relevantPosts 0 n
             | None => relevantPosts
             end)) /\
  (forall out, searchPosts now "typed" firstOnly library = Normal out ->
               forall p, In p out -> In p page).
Proof.
  apply (searchPosts_scores_the_page now "typed" firstOnly library).
  vm_compute. discriminate.
Defined.

(** What C7 means for a reader of the results: "closures" is found in
    [postA] when the whole store is searched, and not found at all under
    [{ limit: 1 }], because the page holds the newest post only. *)
Example pagination_hides_a_match :
  searchPosts now "closures" PostFilters.empty library = Normal [postA] /\
  getPosts (PostFilters.withoutSearch firstOnly) library = [postC] /\
  searchPosts now "closures" firstOnly library = Normal [].
Proof. repeat split; vm_compute; reflexivity. Qed.

End Claims.

(* ------------------------------------------------------------------ *)
(** ** Facts about looking up and replacing stored posts *)

Module LibFacts.
Import JS Posts Spec Lib LibSpec JSFacts PostsFacts SearchFacts.

Lemma arrayIncludes_In (l : list string) (x : string) : arrayIncludes l x = true <-> In x l.
Proof.
  unfold arrayIncludes. rewrite existsb_exists. split.
  - intros (y & Hy & E). apply String.eqb_eq in E. now subst.
  - intros H. exists x. split; [exact H | apply String.eqb_refl].
Qed.

Lemma arrayIncludes_not_In (l : list string) (x : string) :
  arrayIncludes l x = false <-> ~ In x l.
Proof.
  rewrite <- arrayIncludes_In. destruct (arrayIncludes l x); split; congruence.
Qed.

Lemma find_app {A} (f : A -> bool) (l l' : list A) :
  find f (l ++ l') = match find f l with Some x => Some x | None => find f l' end.
Proof.
  induction l as [|x l IH]; simpl; [reflexivity|]. now destruct (f x).
Qed.

Lemma find_none_iff {A} (f : A -> bool) (l : list A) :
  find f l = None <-> forall x, In x l -> f x = false.
Proof.
  split; [apply find_none|].
  induction l as [|x l IH]; simpl; intros H; [reflexivity|].
  rewrite (H x) by now left. apply IH. intros y Hy. apply H. now right.
Qed.

Lemma findIndex_find {A} (pred : A -> bool) (l : list A) :
  match findIndex pred l with
  | Some i => exists x, nth_error l i = Some x /\ find pred l = Some x /\ pred x = true
  | None => find pred l = None
  end.
Proof.
  induction l as [|x l IH]; simpl; [reflexivity|].
  destruct (pred x) eqn:E; simpl.
  - exists x. auto.
  - destruct (findIndex pred l) as [i|]; simpl; exact IH.
Qed.

Lemma length_assign {A} (l : list A) (i : nat) (v : A) :
  List.length (assign l i v) = List.length l.
Proof.
  revert i. induction l as [|x l IH]; intros [|i]; simpl; auto.
Qed.

(** The slot found by [findIndex] holds the first match, so a lookup by the
    same test finds what is written there, if it passes the test. *)
Lemma find_assign_same {A} (pred : A -> bool) (l : list A) (i : nat) (v : A) :
  findIndex pred l = Some i -> pred v = true -> find pred (assign l i v) = Some v.
Proof.
  revert i. induction l as [|x l IH]; intros i; simpl; [discriminate|].
  destruct (pred x) eqn:E.
  - intros H Hv. injection H as <-. simpl. now rewrite Hv.
  - destruct (findIndex pred l) as [j|]; simpl; [|discriminate].
    intros H Hv. injection H as <-. simpl. rewrite E. now apply IH.
Qed.

(** A lookup by a test that tells neither the old nor the new element is
    not affected by the assignment. *)
Lemma find_assign_other {A} (q : A -> bool) (l : list A) (i : nat) (x v : A) :
  nth_error l i = Some x -> q x = false -> q v = false ->
  find q (assign l i v) = find q l.
Proof.
  revert i. induction l as [|y l IH]; intros [|i]; simpl; try discriminate.
  - intros H Hx Hv. injection H as ->. now rewrite Hx, Hv.
  - intros H Hx Hv. destruct (q y); [reflexivity | now apply IH].
Qed.

Lemma map_assign {A B} (f : A -> B) (l : list A) (i : nat) (x v : A) :
  nth_error l i = Some x -> f v = f x -> map f (assign l i v) = map f l.
Proof.
  revert i. induction l as [|y l IH]; intros [|i]; simpl; try discriminate.
  - intros H E. injection H as ->. now rewrite E.
  - intros H E. f_equal. now apply IH.
Qed.

Lemma In_assign {A} (l : list A) (i : nat) (x v : A) :
  nth_error l i = Some x -> In v (assign l i v).
Proof.
  revert i. induction l as [|y l IH]; intros [|i]; simpl; try discriminate.
  - now left.
  - intros H. right. now apply IH.
Qed.

Lemma id_eqb_other (p : Post) (k postId : string) :
  id p = postId -> k <> postId -> (id p =? k)%string = false.
Proof. intros <- H. apply String.eqb_neq. congruence. Qed.

Lemma filter_all {A} (f : A -> bool) (l : list A) :
  List.length (filter f l) = List.length l -> filter f l = l.
Proof.
  induction l as [|x l IH]; simpl; [reflexivity|].
  destruct (f x); simpl; intros H.
  - f_equal. apply IH. lia.
  - pose proof (filter_length_le f l). lia.
Qed.

(** [bulkDeleteFilter] keeps the posts outside [ids] and appends their ids
    to [failed]. *)
Lemma bulkDeleteFilter_spec (ids : list string) (posts : list Post) (failed : list string) :
  bulkDeleteFilter ids posts failed =
    (filter (fun post => negb (arrayIncludes ids (id post))) posts,
     failed ++ map id (filter (fun post => negb (arrayIncludes ids (id post))) posts)).
Proof.
  revert failed. induction posts as [|post rest IH]; intros failed; simpl.
  - now rewrite app_nil_r.
  - destruct (arrayIncludes ids (id post)); simpl; [apply IH|].
    rewrite IH. now rewrite <- app_assoc.
Qed.

Lemma fold_left_sum (f : Post -> Z) (l : list Post) (a : Z) :
  fold_left (fun sum p => sum + f p) l a = a + sumOf f l.
Proof.
  revert a. induction l as [|p l IH]; intros a; simpl; [lia|]. rewrite IH. lia.
Qed.

Lemma sumOf_assign (f : Post -> Z) (l : list Post) (i : nat) (x v : Post) :
  nth_error l i = Some x -> sumOf f (assign l i v) = sumOf f l - f x + f v.
Proof.
  revert i. induction l as [|y l IH]; intros [|i]; simpl; try discriminate.
  - intros H. injection H as ->. lia.
  - intros H. rewrite (IH i H). lia.
Qed.

Lemma filter_assign_length (q : Post -> bool) (l : list Post) (i : nat) (x v : Post) :
  nth_error l i = Some x -> q v = q x ->
  List.length (filter q (assign l i v)) = List.length (filter q l).
Proof.
  revert i. induction l as [|y l IH]; intros [|i]; simpl; try discriminate.
  - intros H E. injection H as ->. rewrite E. now destruct (q x).
  - intros H E. destruct (q y); simpl; auto.
Qed.

(** What [updatePost] never changes, and the time stamp it sets. *)
Lemma updatedPost_fixed_fields (now : Z) (existingPost : Post) (data : UpdatePostRequest.t) :
  let post := updatedPost now existingPost data in
  id post = id existingPost /\ createdAt post = createdAt existingPost /\
  viewCount post = viewCount existingPost /\ likeCount post = likeCount existingPost /\
  updatedAt post = now.
Proof.
  unfold updatedPost.
  destruct (Status_eqb _ published_status);
    destruct (UpdatePostRequest.scheduledPublishAt data) as [[t|]|];
    try destruct (t <=? now); simpl; repeat split; reflexivity.
Qed.

(** *** The schedule *)

(** The guard of [publishScheduledPosts] does not hold for any post: the
    schedule it compares with the date is a text that is no number. *)
Lemma publishIfDue_never (now : Z) (post : Post) : publishIfDue now post = (post, false).
Proof.
  unfold publishIfDue. destruct (scheduledPublishAt post) as [t|]; [|reflexivity].
  now rewrite textAtMostDate_toISOString, !andb_false_r.
Qed.

Lemma publishScheduledPosts_unchanged (now : Z) (l : list Post) :
  publishScheduledPosts now l = (l, 0%nat).
Proof.
  unfold publishScheduledPosts. induction l as [|x l IH]; simpl; [reflexivity|].
  injection IH as IH1 IH2. rewrite publishIfDue_never. simpl. now rewrite IH1, IH2.
Qed.

(** [updatePost] keeps the ids of the store in place. *)
Lemma updatePost_keeps_ids (now : Z) (postId : string) (data : UpdatePostRequest.t)
    (stored stored' : list Post) (post : Post) :
  updatePost now postId data stored = Some (post, stored') ->
  map id stored' = map id stored.
Proof.
  unfold updatePost.
  destruct (findIndex _ stored) as [index|]; [|discriminate].
  destruct (nth_error stored index) as [x|] eqn:Hn; [|discriminate].
  intros H. injection H as _ <-.
  apply (map_assign id _ _ x); [exact Hn|].
  apply (updatedPost_fixed_fields now x data).
Qed.

Lemma updatePost_finds (now : Z) (postId : string) (data : UpdatePostRequest.t)
    (stored : list Post) :
  In postId (map id stored) -> updatePost now postId data stored <> None.
Proof.
  intros Hin. unfold updatePost.
  pose proof (findIndex_find (fun post => (id post =? postId)%string) stored) as H.
  destruct (findIndex _ stored) as [index|].
  - destruct H as (x & -> & _). discriminate.
  - exfalso. apply in_map_iff in Hin as (p & Hid & Hp).
    rewrite find_none_iff in H. specialize (H p Hp).
    apply String.eqb_neq in H. contradiction.
Qed.

(** *** The loop of [bulkUpdatePosts] *)

Lemma bulkUpdateLoop_never_fails (clock : nat -> Z) (ids : list string)
    (updates : UpdatePostRequest.t) (posts : list Post) :
  forall (i : nat) (stored : list Post) (updated : nat) (failed : list string),
  (forall p, In p posts -> In (id p) (map id stored)) ->
  let result := bulkUpdateLoop clock ids updates i posts stored updated failed in
  map id (fst result) = map id stored /\
  fst (snd result) =
    (updated + List.length (filter (fun p => arrayIncludes ids (id p)) posts))%nat /\
  snd (snd result) = failed.
Proof.
  induction posts as [|post rest IH]; intros i stored updated failed Hin; simpl.
  - repeat split. lia.
  - assert (Hrest : forall stored', map id stored' = map id stored ->
                    forall p, In p rest -> In (id p) (map id stored')).
    { intros stored' E p Hp. rewrite E. apply Hin. now right. }
    destruct (arrayIncludes ids (id post)) eqn:Einc; simpl.
    + destruct (updatePost (clock i) (id post) updates stored) as [[p stored']|] eqn:E.
      * pose proof (updatePost_keeps_ids _ _ _ _ _ _ E) as Hids.
        destruct (IH (S i) stored' (S updated) failed (Hrest stored' Hids)) as (H1 & H2 & H3).
        split; [congruence|]. split; [rewrite H2; lia | exact H3].
      * exfalso. apply (updatePost_finds (clock i) (id post) updates stored); [|exact E].
        apply Hin. now left.
    + apply IH. apply (Hrest stored eq_refl).
Qed.

(** *** The layers of [applyFilters] *)

Lemma whenSome_In {K} (o : option K) (g : K -> Post -> bool) (l : list Post) (p : Post) :
  In p (whenSome o (fun k => filter (g k)) l) ->
  In p l /\ forall k, o = Some k -> g k p = true.
Proof.
  destruct o as [k|]; simpl.
  - intros H. apply filter_In in H as [H1 H2]. split; [exact H1|].
    intros k' E. now injection E as <-.
  - intros H. split; [exact H | discriminate].
Qed.

Lemma whenString_In (o : option string) (g : string -> Post -> bool) (l : list Post)
    (p : Post) :
  In p (whenString o (fun k => filter (g k)) l) ->
  In p l /\ forall k, o = Some k -> k <> EmptyString -> g k p = true.
Proof.
  destruct o as [k|]; simpl.
  - destruct (String.length k =? 0)%nat eqn:E.
    + intros H. split; [exact H|]. intros k' Ek Hne. injection Ek as <-.
      destruct k; [congruence | discriminate].
    + intros H. apply filter_In in H as [H1 H2]. split; [exact H1|].
      intros k' Ek _. now injection Ek as <-.
  - intros H. split; [exact H | discriminate].
Qed.

Lemma excludeIds_In (o : option (list string)) (l : list Post) (p : Post) :
  In p (whenSome o (fun ids => if (0 <? List.length ids)%nat
                               then filter (fun post => negb (arrayIncludes ids (id post)))
                               else fun posts => posts) l) ->
  In p l /\ forall ids, o = Some ids -> ~ In (id p) ids.
Proof.
  destruct o as [ids|]; cbn [whenSome].
  - destruct (0 <? List.length ids)%nat eqn:El.
    + intros H. apply filter_In in H as [H1 H2]. split; [exact H1|].
      intros ids' E. injection E as <-.
      apply negb_true_iff, arrayIncludes_not_In in H2. exact H2.
    + intros H. split; [exact H|]. intros ids' E. injection E as <-.
      destruct ids; [tauto | discriminate].
  - intros H. split; [exact H | discriminate].
Qed.

(** *** Slices *)

Lemma firstn_plus {A} (n m : nat) (l : list A) :
  firstn (n + m) l = firstn n l ++ firstn m (skipn n l).
Proof.
  revert l. induction n as [|n IH]; intros [|x l]; simpl; try reflexivity.
  - now rewrite firstn_nil.
  - now rewrite IH.
Qed.

Lemma skipn_plus {A} (n m : nat) (l : list A) : skipn (n + m) l = skipn m (skipn n l).
Proof.
  revert l. induction n as [|n IH]; intros [|x l]; simpl; try reflexivity.
  - now rewrite skipn_nil.
  - apply IH.
Qed.

(** Two windows that follow each other make one window. *)
Lemma slice_app {A} (l : list A) (a b c : Z) :
  0 <= a <= b -> b <= c -> slice l a b ++ slice l b c = slice l a c.
Proof.
  intros Hab Hbc. unfold slice, relativeIndex.
  set (len := Z.of_nat (List.length l)).
  replace (a <? 0) with false by (symmetry; apply Z.ltb_ge; lia).
  replace (b <? 0) with false by (symmetry; apply Z.ltb_ge; lia).
  replace (c <? 0) with false by (symmetry; apply Z.ltb_ge; lia).
  assert (Hlen : 0 <= len) by (subst len; lia).
  replace (Z.to_nat (Z.min c len - Z.min a len))
    with (Z.to_nat (Z.min b len - Z.min a len) + Z.to_nat (Z.min c len - Z.min b len))%nat
    by lia.
  rewrite firstn_plus. f_equal. f_equal.
  rewrite <- skipn_plus. f_equal. lia.
Qed.

Lemma slice_all {A} (l : list A) : slice l 0 (0 + Z.of_nat (List.length l)) = l.
Proof.
  unfold slice, relativeIndex. simpl.
  replace (Z.of_nat (List.length l) <? 0) with false by (symmetry; apply Z.ltb_ge; lia).
  rewrite Z.min_id, Z.min_l by lia. simpl.
  rewrite Z.sub_0_r, Nat2Z.id. apply firstn_all.
Qed.

Lemma sort_Permutation {A} (after : A -> A -> bool) (l : list A) :
  Permutation (sort after l) l.
Proof.
  induction l as [|x l IH]; simpl; [constructor|].
  transitivity (x :: sort after l); [|now constructor].
  clear IH. induction (sort after l) as [|y s IH]; simpl; [reflexivity|].
  destruct (after x y); [|reflexivity].
  transitivity (y :: x :: s); [now constructor | constructor].
Qed.

(** *** Case and white space of a query *)

Lemma lowerChar_idempotent (c : ascii) : lowerChar (lowerChar c) = lowerChar c.
Proof.
  destruct c as [b0 b1 b2 b3 b4 b5 b6 b7].
  destruct b0, b1, b2, b3, b4, b5, b6, b7; reflexivity.
Qed.

Lemma toLowerCase_idempotent (s : string) : toLowerCase (toLowerCase s) = toLowerCase s.
Proof.
  induction s as [|c s IH]; simpl; [reflexivity|]. now rewrite lowerChar_idempotent, IH.
Qed.

Lemma length_toLowerCase (s : string) : String.length (toLowerCase s) = String.length s.
Proof. induction s as [|c s IH]; simpl; congruence. Qed.

Lemma trimEnd_idempotent (s : string) : trimEnd (trimEnd s) = trimEnd s.
Proof.
  induction s as [|c s IH]; simpl; [reflexivity|].
  destruct (trimEnd s) as [|d t] eqn:E.
  - destruct (isWhiteSpace c) eqn:Ec; simpl; [reflexivity | now rewrite Ec].
  - simpl in *. now rewrite IH.
Qed.

Lemma trimStart_fixed (s : string) :
  match s with
  | EmptyString => True
  | String c _ => isWhiteSpace c = false
  end -> trimStart s = s.
Proof. destruct s as [|c s]; simpl; [reflexivity|]. now intros ->. Qed.

Lemma trim_idempotent (s : string) : trim (trim s) = trim s.
Proof.
  unfold trim at 1. rewrite (trimStart_fixed (trim s) (trim_head s)).
  unfold trim. apply trimEnd_idempotent.
Qed.

(** *** Occurrences *)

Lemma occurrencesFrom_positive (t : string) :
  t <> EmptyString ->
  forall (s : string) (g : nat),
  includes s t = true -> (String.length s < g)%nat -> (1 <= occurrencesFrom g t s)%nat.
Proof.
  intros Ht. induction s as [|c s IH]; intros [|g] Hin Hg; simpl in Hg; try lia.
  - cbn [includes] in Hin. destruct (String.prefix t EmptyString) eqn:E; [|discriminate].
    now apply RegExpFacts.prefix_nonempty in E.
  - cbn [includes occurrencesFrom] in *.
    destruct (String.prefix t (String c s)); [lia|].
    apply IH; [exact Hin | lia].
Qed.

Lemma occurrencesFrom_bounded (t : string) :
  t <> EmptyString ->
  forall (n : nat) (s : string) (g : nat),
  (String.length s <= n)%nat -> (occurrencesFrom g t s <= String.length s)%nat.
Proof.
  intros Ht.
  assert (Hlen : (0 < String.length t)%nat) by (destruct t; [congruence | simpl; lia]).
  induction n as [|n IH]; intros s [|g] Hn; cbn [occurrencesFrom]; try lia;
    destruct (String.prefix t s) eqn:E.
  - apply RegExpFacts.prefix_nonempty in E; [|exact Ht].
    destruct s; [congruence | simpl in Hn; lia].
  - destruct s; [lia | simpl in Hn; lia].
  - assert (Hs : s <> EmptyString) by now apply RegExpFacts.prefix_nonempty with t.
    pose proof (RegExpFacts.length_dropChars (String.length t) s) as Hd.
    assert (Hpos : (0 < String.length s)%nat) by (destruct s; [congruence | simpl; lia]).
    specialize (IH (dropChars (String.length t) s) g). lia.
  - destruct s as [|c s]; [lia|]. simpl in Hn. specialize (IH s g). simpl. lia.
Qed.

(** *** The similarity order *)

Lemma similarity_after_asym (a b : Post * Q) :
  Qlt_bool 0%Q (double (snd b - snd a)) = true ->
  Qlt_bool 0%Q (double (snd a - snd b)) = false.
Proof.
  rewrite !double_positive. intros H. apply Qlt_bool_iff in H.
  destruct (Qlt_bool 0%Q (snd a - snd b)%Q) eqn:E; [|reflexivity].
  apply Qlt_bool_iff in E. lra.
Qed.

Lemma similarity_not_after (a b : Post * Q) :
  Qlt_bool 0%Q (double (snd b - snd a)) = false <-> (snd b <= snd a)%Q.
Proof.
  rewrite double_positive.
  split; intros H.
  - destruct (Qlt_le_dec (snd a) (snd b)) as [Hlt|Hle]; [|exact Hle].
    assert (E : Qlt_bool 0%Q (snd b - snd a)%Q = true) by (apply Qlt_bool_iff; lra).
    congruence.
  - destruct (Qlt_bool 0%Q (snd b - snd a)%Q) eqn:E; [|reflexivity].
    apply Qlt_bool_iff in E. lra.
Qed.

(** *** Slugs *)

Lemma keptChar_lowerChar (c : ascii) :
  (isWordChar (lowerChar c) || isWhiteSpace (lowerChar c) || isHyphen (lowerChar c)) = true ->
  keptChar (lowerChar c) = true.
Proof.
  intros H. unfold keptChar. rewrite H, lowerChar_idempotent. apply Ascii.eqb_refl.
Qed.

Lemma keptChar_slug (c : ascii) :
  keptChar c = true -> isWhiteSpace c = false -> isSlugChar c = true.
Proof.
  destruct c as [b0 b1 b2 b3 b4 b5 b6 b7].
  destruct b0, b1, b2, b3, b4, b5, b6, b7; intros H1 H2;
    try reflexivity; try discriminate H1; discriminate H2.
Qed.

(** What a slug character is to the five steps of [generateSlug]. *)
Lemma slugChar_facts (c : ascii) :
  isSlugChar c = true ->
  lowerChar c = c /\ (isWordChar c || isWhiteSpace c || isHyphen c) = true /\
  isWhiteSpace c = false.
Proof.
  destruct c as [b0 b1 b2 b3 b4 b5 b6 b7].
  destruct b0, b1, b2, b3, b4, b5, b6, b7; intros H;
    try discriminate H; repeat split; reflexivity.
Qed.

Lemma hyphen_is_slugChar : isSlugChar "-"%char = true.
Proof. reflexivity. Qed.

Lemma allChars_removeOthers_lower (s : string) :
  allChars keptChar
    (removeOthers (fun c => isWordChar c || isWhiteSpace c || isHyphen c) (toLowerCase s))
  = true.
Proof.
  induction s as [|c s IH]; simpl; [reflexivity|].
  destruct (isWordChar (lowerChar c) || isWhiteSpace (lowerChar c) || isHyphen (lowerChar c))
    eqn:E; [|exact IH].
  simpl. now rewrite (keptChar_lowerChar c E).
Qed.

Lemma allChars_replace_spaces (s : string) (inRun : bool) :
  allChars keptChar s = true ->
  allChars isSlugChar (replaceRuns isWhiteSpace inRun s) = true.
Proof.
  revert inRun. induction s as [|c s IH]; intros inRun; simpl; [reflexivity|].
  intros H. apply andb_prop in H as [Hc Hs].
  destruct (isWhiteSpace c) eqn:E.
  - destruct inRun; simpl; auto.
  - simpl. now rewrite (keptChar_slug c Hc E), IH.
Qed.

Lemma allChars_replace_hyphens (s : string) (inRun : bool) :
  allChars isSlugChar s = true ->
  allChars isSlugChar (replaceRuns isHyphen inRun s) = true.
Proof.
  revert inRun. induction s as [|c s IH]; intros inRun; simpl; [reflexivity|].
  intros H. apply andb_prop in H as [Hc Hs].
  destruct (isHyphen c).
  - destruct inRun; simpl; auto.
  - simpl. now rewrite Hc, IH.
Qed.

Lemma allChars_stripStart (q p : ascii -> bool) (s : string) :
  allChars q s = true -> allChars q (stripStart p s) = true.
Proof.
  induction s as [|c s IH]; simpl; [reflexivity|].
  intros H. destruct (p c); [|exact H].
  apply andb_prop in H as [_ H]. now apply IH.
Qed.

Lemma allChars_stripEnd (q p : ascii -> bool) (s : string) :
  allChars q s = true -> allChars q (stripEnd p s) = true.
Proof.
  induction s as [|c s IH]; simpl; [reflexivity|].
  intros H. apply andb_prop in H as [Hc Hs]. specialize (IH Hs).
  destruct (stripEnd p s) as [|d t].
  - destruct (p c); simpl; [reflexivity | now rewrite Hc].
  - simpl in *. now rewrite Hc.
Qed.

Lemma hyphensSingle_replace (s : string) (inRun : bool) :
  hyphensSingle inRun (replaceRuns isHyphen inRun s) = true.
Proof.
  revert inRun. induction s as [|c s IH]; intros inRun; simpl; [reflexivity|].
  destruct (isHyphen c) eqn:E.
  - destruct inRun; [apply IH|]. simpl. apply IH.
  - simpl. rewrite E. apply IH.
Qed.

Lemma hyphensSingle_stripStart (s : string) (b : bool) :
  hyphensSingle b s = true -> hyphensSingle true (stripStart isHyphen s) = true.
Proof.
  revert b. induction s as [|c s IH]; intros b; simpl; [reflexivity|].
  destruct (isHyphen c) eqn:E.
  - intros H. apply andb_prop in H as [_ H]. now apply IH with true.
  - intros H. simpl. now rewrite E.
Qed.

Lemma hyphensApart_stripEnd (s : string) (b : bool) :
  hyphensSingle b s = true ->
  match stripEnd isHyphen s with
  | EmptyString => True
  | t => hyphensApart b t = true
  end.
Proof.
  revert b. induction s as [|c s IH]; intros b; simpl; [trivial|].
  intros H.
  assert (Hs : exists b', hyphensSingle b' s = true /\
                (hyphensApart b (String c EmptyString) = negb (isHyphen c)) /\
                forall t, hyphensApart b' t = true -> hyphensApart b (String c t) = true).
  { destruct (isHyphen c) eqn:E.
    - apply andb_prop in H as [Hb H]. exists true. simpl. rewrite E, Hb.
      repeat split; auto.
    - exists false. simpl. rewrite E. auto. }
  destruct Hs as (b' & Hs & Hone & Hcons).
  specialize (IH b' Hs).
  destruct (stripEnd isHyphen s) as [|d t].
  - destruct (isHyphen c) eqn:E; [trivial|]. simpl. now rewrite E.
  - now apply Hcons.
Qed.

Lemma trim_fixed (s : string) : allChars isSlugChar s = true -> trim s = s.
Proof.
  intros H. unfold trim.
  assert (Hend : forall t, allChars isSlugChar t = true -> trimEnd t = t).
  { induction t as [|c t IH]; simpl; [reflexivity|].
    intros Ht. apply andb_prop in Ht as [Hc Ht]. rewrite (IH Ht).
    destruct (slugChar_facts c Hc) as (_ & _ & Hw). rewrite Hw. now destruct t. }
  rewrite trimStart_fixed; [now apply Hend|].
  destruct s as [|c s]; [exact I|]. simpl in H. apply andb_prop in H as [Hc _].
  apply (slugChar_facts c Hc).
Qed.

(** A well-formed slug passes through every step of [generateSlug]
    unchanged. *)
Lemma toLowerCase_fixed (s : string) : allChars isSlugChar s = true -> toLowerCase s = s.
Proof.
  induction s as [|c s IH]; simpl; [reflexivity|].
  intros H. apply andb_prop in H as [Hc Hs].
  destruct (slugChar_facts c Hc) as (-> & _). now rewrite IH.
Qed.

Lemma removeOthers_fixed (s : string) :
  allChars isSlugChar s = true ->
  removeOthers (fun c => isWordChar c || isWhiteSpace c || isHyphen c) s = s.
Proof.
  induction s as [|c s IH]; simpl; [reflexivity|].
  intros H. apply andb_prop in H as [Hc Hs].
  destruct (slugChar_facts c Hc) as (_ & -> & _). now rewrite IH.
Qed.

Lemma replace_spaces_fixed (s : string) (inRun : bool) :
  allChars isSlugChar s = true -> replaceRuns isWhiteSpace inRun s = s.
Proof.
  revert inRun. induction s as [|c s IH]; intros inRun; simpl; [reflexivity|].
  intros H. apply andb_prop in H as [Hc Hs].
  destruct (slugChar_facts c Hc) as (_ & _ & ->). now rewrite IH.
Qed.

Lemma hyphensApart_single (s : string) (b : bool) :
  hyphensApart b s = true -> hyphensSingle b s = true.
Proof.
  revert b. induction s as [|c s IH]; intros b; simpl; [reflexivity|].
  destruct (isHyphen c).
  - intros H. apply andb_prop in H as [-> H]. simpl. now apply IH.
  - apply IH.
Qed.

Lemma replace_hyphens_fixed (s : string) (b : bool) :
  hyphensSingle b s = true -> replaceRuns isHyphen b s = s.
Proof.
  revert b. induction s as [|c s IH]; intros b; simpl; [reflexivity|].
  destruct (isHyphen c) eqn:E.
  - intros H. apply andb_prop in H as [Hb H]. apply negb_true_iff in Hb. subst b.
    rewrite (IH true H). f_equal. symmetry. now apply Ascii.eqb_eq.
  - intros H. now rewrite IH.
Qed.

Lemma stripEnd_fixed (s : string) (b : bool) :
  hyphensApart b s = true -> stripEnd isHyphen s = s.
Proof.
  revert b. induction s as [|c s IH]; intros b; simpl; [reflexivity|].
  intros H.
  assert (Hs : exists b', hyphensApart b' s = true /\ (isHyphen c = true -> b' = true)).
  { destruct (isHyphen c); [apply andb_prop in H as [_ H]; eauto|].
    exists false. split; [exact H | discriminate]. }
  destruct Hs as (b' & Hs & Hb). rewrite (IH b' Hs).
  destruct s as [|d t]; [|reflexivity].
  destruct (isHyphen c); [|reflexivity].
  rewrite (Hb eq_refl) in Hs. discriminate Hs.
Qed.

(** *** Words and pieces *)

Lemma words_of_pieces (inRun : bool) (s : string) :
  filter (fun word => (0 <? String.length word)%nat) (splitWs inRun s) = [] <->
  blank s = true.
Proof.
  revert inRun. induction s as [|c s IH]; intros inRun; simpl; [tauto|].
  destruct (isWhiteSpace c); simpl.
  - destruct inRun; simpl; apply IH.
  - split; [|discriminate].
    destruct (splitWs false s); simpl; discriminate.
Qed.

(** Only the first and the last piece of a split can be empty. *)
Lemma emptyPieces_bound (s : string) :
  forall inRun,
  (emptyPieces (tl (splitWs inRun s)) <= 1)%nat /\
  (inRun = true -> emptyPieces (splitWs inRun s) <= 1)%nat.
Proof.
  unfold emptyPieces. induction s as [|c s IH]; intros inRun; simpl; [lia|].
  destruct (isWhiteSpace c).
  - destruct inRun; simpl.
    + split; [apply IH | intros _; now apply IH].
    + split; [now apply IH | discriminate].
  - destruct (IH false) as [IHt _].
    destruct (splitWs false s) as [|t ts]; simpl in *; lia.
Qed.

Lemma pieces_and_words (s : string) :
  let pieces := List.length (split_whitespace s) in
  let words := List.length (filter (fun word => (0 <? String.length word)%nat)
                                   (split_whitespace s)) in
  (1 <= pieces /\ words <= pieces <= words + 2)%nat.
Proof.
  unfold split_whitespace. simpl.
  destruct (emptyPieces_bound s false) as [Ht _]. unfold emptyPieces in Ht.
  assert (Hsplit : forall l : list string,
            List.length l =
            (List.length (filter (fun word => (0 <? String.length word)%nat) l)
             + List.length (filter (fun word => negb (0 <? String.length word)%nat) l))%nat).
  { induction l as [|x l IH]; simpl; [reflexivity|].
    destruct (0 <? String.length x)%nat; simpl; lia. }
  assert (Hne : splitWs false s <> []).
  { destruct s as [|c s]; simpl; [discriminate|].
    destruct (isWhiteSpace c); [discriminate|]. destruct (splitWs false s); discriminate. }
  pose proof (Hsplit (splitWs false s)) as Hl.
  destruct (splitWs false s) as [|x l]; [congruence|].
  simpl in *. destruct (0 <? String.length x)%nat; simpl in *; lia.
Qed.

(** *** The slugs tried by [ensureUniqueSlug] *)

Lemma length_append (a b : string) :
  String.length (a ++ b)%string = (String.length a + String.length b)%nat.
Proof. induction a as [|c a IH]; simpl; congruence. Qed.

Lemma append_cancel (a b b' : string) : (a ++ b)%string = (a ++ b')%string -> b = b'.
Proof.
  induction a as [|c a IH]; simpl; [tauto|]. intros H. injection H as H. now apply IH.
Qed.

Lemma candidateSlug_injective (baseSlug : string) (i j : nat) :
  candidateSlug baseSlug i = candidateSlug baseSlug j -> i = j.
Proof.
  unfold candidateSlug, numberedSlug. destruct i as [|i], j as [|j]; intros H.
  - reflexivity.
  - apply (f_equal String.length) in H. rewrite length_append in H. simpl in H. lia.
  - apply (f_equal String.length) in H. rewrite length_append in H. simpl in H. lia.
  - apply append_cancel in H. simpl in H. injection H as H.
    apply (f_equal NilEmpty.uint_of_string) in H. rewrite !NilEmpty.usu in H.
    injection H as H. now apply Unsigned.to_uint_inj.
Qed.

Lemma slugTaken_In (posts : list (string * string)) (excludeId : option string)
    (slug : string) :
  slugTaken posts excludeId slug = true -> In slug (map snd posts).
Proof.
  unfold slugTaken. intros H. apply existsb_exists in H as (post & Hp & H).
  apply andb_prop in H as [H _]. apply String.eqb_eq in H. subst. now apply in_map.
Qed.

(** What the loop returns when it starts at the [j]-th slug after the
    slugs before it were found taken. *)
Lemma uniqueSlugLoop_spec (posts : list (string * string)) (excludeId : option string)
    (baseSlug : string) (fuel : nat) :
  forall j,
  (forall i, (i < j)%nat -> slugTaken posts excludeId (candidateSlug baseSlug i) = true) ->
  match uniqueSlugLoop fuel posts excludeId baseSlug (candidateSlug baseSlug j) (S j) with
  | Some slug =>
      exists k, (j <= k < j + fuel)%nat /\ slug = candidateSlug baseSlug k /\
                slugTaken posts excludeId slug = false /\
                forall i, (i < k)%nat ->
                          slugTaken posts excludeId (candidateSlug baseSlug i) = true
  | None =>
      forall i, (i < j + fuel)%nat ->
                slugTaken posts excludeId (candidateSlug baseSlug i) = true
  end.
Proof.
  induction fuel as [|fuel IH]; intros j Hbefore; simpl.
  - intros i Hi. apply Hbefore. lia.
  - destruct (slugTaken posts excludeId (candidateSlug baseSlug j)) eqn:E.
    + change (numberedSlug baseSlug (S j)) with (candidateSlug baseSlug (S j)).
      assert (Hnext : forall i, (i < S j)%nat ->
                slugTaken posts excludeId (candidateSlug baseSlug i) = true).
      { intros i Hi. destruct (Nat.eq_dec i j) as [->|]; [exact E | apply Hbefore; lia]. }
      specialize (IH (S j) Hnext).
      destruct (uniqueSlugLoop fuel posts excludeId baseSlug _ _).
      * destruct IH as (k & Hk & H). exists k. split; [lia | exact H].
      * intros i Hi. apply IH. lia.
    + exists j. split; [lia|]. auto.
Qed.

(** Not every one of [n + 1] slugs can be taken by [n] posts. *)
Lemma candidates_not_all_taken (posts : list (string * string)) (excludeId : option string)
    (baseSlug : string) :
  ~ (forall i, (i < S (List.length posts))%nat ->
               slugTaken posts excludeId (candidateSlug baseSlug i) = true).
Proof.
  intros H.
  assert (Hle : (List.length (map (candidateSlug baseSlug) (seq 0 (S (List.length posts))))
                 <= List.length (map snd posts))%nat).
  { apply NoDup_incl_length.
    - apply Finite.Injective_map_NoDup; [|apply seq_NoDup].
      intros i j. apply candidateSlug_injective.
    - intros slug Hs. apply in_map_iff in Hs as (i & <- & Hi). apply in_seq in Hi.
      apply (slugTaken_In posts excludeId). apply H. lia. }
  rewrite !length_map, length_seq in Hle. lia.
Qed.

(** [Math.ceil(n / 200)] on an integer [n]. *)
Lemma ceiling_of_200th (n : Z) :
  let r := Qceiling (inject_Z n / inject_Z 200) in
  n <= 200 * r /\ 200 * (r - 1) < n.
Proof.
  assert (E : Qceiling (inject_Z n / inject_Z 200) = - ((- n) / 200)).
  { unfold Qceiling, Qfloor, Qdiv, Qmult, Qinv, Qopp, inject_Z. simpl.
    now rewrite Z.mul_1_r. }
  cbv zeta. rewrite E.
  pose proof (Z.div_mod (- n) 200). pose proof (Z.mod_pos_bound (- n) 200). lia.
Qed.

(** The shape of a slug, and what [generateSlug] does to a string of
    that shape. *)
Lemma generateSlug_shape (title : string) : wellFormedSlug (generateSlug title) = true.
Proof.
  unfold generateSlug.
  set (s2 := removeOthers _ (toLowerCase title)).
  set (s3 := replaceRuns isWhiteSpace false s2).
  set (s4 := replaceRuns isHyphen false s3).
  set (s5 := stripEnd isHyphen (stripStart isHyphen s4)).
  assert (H3 : allChars isSlugChar s3 = true)
    by (apply allChars_replace_spaces, allChars_removeOthers_lower).
  assert (H4 : allChars isSlugChar s4 = true) by now apply allChars_replace_hyphens.
  assert (H5 : allChars isSlugChar s5 = true)
    by now apply allChars_stripEnd, allChars_stripStart.
  rewrite (trim_fixed s5 H5). unfold wellFormedSlug. rewrite H5. simpl.
  pose proof (hyphensApart_stripEnd (stripStart isHyphen s4) true
                (hyphensSingle_stripStart s4 false (hyphensSingle_replace s3 false))) as H.
  fold s5 in H. now destruct s5.
Qed.

Lemma generateSlug_fixed (s : string) : wellFormedSlug s = true -> generateSlug s = s.
Proof.
  intros H. unfold wellFormedSlug in H. apply andb_prop in H as [Hc Hh].
  unfold generateSlug.
  rewrite (toLowerCase_fixed s Hc), (removeOthers_fixed s Hc),
    (replace_spaces_fixed s false Hc).
  destruct s as [|c s]; [reflexivity|].
  assert (Hs : hyphensSingle true (String c s) = true) by now apply hyphensApart_single.
  assert (Hf : hyphensSingle false (String c s) = true).
  { simpl in *. destruct (isHyphen c); [discriminate Hs | exact Hs]. }
  rewrite (replace_hyphens_fixed _ false Hf).
  assert (Hstart : stripStart isHyphen (String c s) = String c s).
  { simpl in *. destruct (isHyphen c); [discriminate Hs | reflexivity]. }
  rewrite Hstart, (stripEnd_fixed _ true Hh). now apply trim_fixed.
Qed.

End LibFacts.

(* ------------------------------------------------------------------ *)
(** ** Further properties of [lib/posts.ts] *)

Module Extras.
Import JS Posts Spec Samples Lib LibSpec JSFacts PostsFacts SearchFacts LibFacts.

(** *** Creating, updating and removing posts *)

(** X1: when no stored post has the new id, a lookup of that id after
    [createPost] returns the post created, every other lookup answers as
    before, and the store has one post more. *)
Theorem createPost_then_getPostById
    (now : Z) (newId : string) (data : CreatePostRequest.t) (stored : list Post) :
  (forall p, In p stored -> id p <> newId) ->
  let created := createPost now newId data stored in
  getPostById newId (snd created) = Some (fst created) /\
  (forall k, k <> newId -> getPostById k (snd created) = getPostById k stored) /\
  List.length (snd created) = S (List.length stored).
Proof.
  intros Hfresh created. unfold created, createPost, getPostById; simpl.
  split; [|split].
  - rewrite find_app.
    replace (find _ stored) with (@None Post).
    + simpl. now rewrite String.eqb_refl.
    + symmetry. apply find_none_iff. intros p Hp.
      apply String.eqb_neq. now apply Hfresh.
  - intros k Hk. rewrite find_app. destruct (find _ stored); [reflexivity|].
    simpl. apply String.eqb_neq in Hk. rewrite String.eqb_sym. now rewrite Hk.
  - rewrite length_app. simpl. lia.
Qed.

Lemma createPost_then_getPostById_witness :
  let created := createPost now "n" (scheduledRequest (now + day)) library in
  getPostById "n" (snd created) = Some (fst created) /\
  (forall k, k <> "n" -> getPostById k (snd created) = getPostById k library) /\
  List.length (snd created) = S (List.length library).
Proof.
  apply (createPost_then_getPostById now "n" (scheduledRequest (now + day)) library).
  intros p [<-|[<-|[<-|[]]]]; discriminate.
Defined.

(** X2: [updatePost] answers [null] exactly for an id that no stored post
    has.  Otherwise it rewrites the first post with the id: a lookup of the
    id then returns the post written, the other lookups answer as before,
    the store keeps its size, and the id, the creation time and the
    counters of the post are the old ones while [updatedAt] is the time of
    the call. *)
Theorem updatePost_then_getPostById
    (now : Z) (postId : string) (data : UpdatePostRequest.t) (stored : list Post) :
  match getPostById postId stored with
  | None => updatePost now postId data stored = None
  | Some existingPost =>
      exists post stored',
        updatePost now postId data stored = Some (post, stored') /\
        getPostById postId stored' = Some post /\
        (forall k, k <> postId -> getPostById k stored' = getPostById k stored) /\
        List.length stored' = List.length stored /\
        id post = postId /\ createdAt post = createdAt existingPost /\
        viewCount post = viewCount existingPost /\
        likeCount post = likeCount existingPost /\ updatedAt post = now
  end.
Proof.
  unfold getPostById, updatePost.
  pose proof (findIndex_find (fun post => (id post =? postId)%string) stored) as H.
  destruct (findIndex _ stored) as [index|] eqn:Ei.
  - destruct H as (x & Hn & Hf & Hx). rewrite Hf, Hn.
    apply String.eqb_eq in Hx.
    destruct (updatedPost_fixed_fields now x data) as (Hid & Hc & Hv & Hl & Hu).
    exists (updatedPost now x data), (assign stored index (updatedPost now x data)).
    split; [reflexivity|]. split.
    + apply find_assign_same; [exact Ei|]. rewrite Hid. now apply String.eqb_eq.
    + split; [|split; [now rewrite length_assign|]].
      * intros k Hk. apply (find_assign_other _ _ _ x); [exact Hn| |].
        -- now apply id_eqb_other with postId.
        -- apply id_eqb_other with postId; [congruence | exact Hk].
      * repeat split; congruence.
  - now rewrite H.
Qed.

(** X3: after [deletePost] no lookup finds the id; the flag is true exactly
    when a stored post had the id; and the posts left are the stored posts
    with another id, all of them. *)
Theorem deletePost_removes_the_id (postId : string) (stored : list Post) :
  let result := deletePost postId stored in
  getPostById postId (snd result) = None /\
  (fst result = true <-> exists p, In p stored /\ id p = postId) /\
  (forall p, In p (snd result) <-> In p stored /\ id p <> postId).
Proof.
  unfold deletePost.
  set (keep := fun post => negb (id post =? postId)%string).
  assert (Hkeep : forall p, In p (filter keep stored) <-> In p stored /\ id p <> postId).
  { intros p. rewrite filter_In. unfold keep. rewrite negb_true_iff, String.eqb_neq. tauto. }
  assert (Hnone : getPostById postId (filter keep stored) = None).
  { apply find_none_iff. intros p Hp. apply Hkeep in Hp as [_ Hp].
    now apply String.eqb_neq. }
  destruct (List.length (filter keep stored) =? List.length stored)%nat eqn:E; simpl.
  - apply Nat.eqb_eq, filter_all in E. rewrite E in Hnone, Hkeep.
    split; [exact Hnone|]. split; [|exact Hkeep].
    split; [discriminate|]. intros (p & Hp & Hid). exfalso.
    apply Hkeep in Hp. tauto.
  - split; [exact Hnone|]. split; [|exact Hkeep].
    split; [intros _|reflexivity].
    apply Nat.eqb_neq in E.
    destruct (find (fun post => (id post =? postId)%string) stored) as [p|] eqn:Ef.
    + apply find_some in Ef as [Hp Hid]. exists p. split; [exact Hp|].
      now apply String.eqb_eq.
    + exfalso. apply E. f_equal.
      rewrite find_none_iff in Ef.
      clear -Ef. induction stored as [|x l IH]; simpl; [reflexivity|].
      unfold keep at 1. rewrite (Ef x) by now left. simpl. f_equal.
      apply IH. intros y Hy. apply Ef. now right.
Qed.

(** X4: [bulkDeletePost] removes the stored posts whose id is listed; the
    [failed] list it reports holds the ids of the posts it kept, so a
    listed id never appears in it, and [deleted] plus the number of
    [failed] ids is the number of posts stored before. *)
Theorem bulkDeletePost_reports_the_kept_posts (ids : list string) (stored : list Post) :
  let result := bulkDeletePost ids stored in
  let deleted := fst (snd result) in
  let failed := snd (snd result) in
  (forall p, In p (fst result) <-> In p stored /\ ~ In (id p) ids) /\
  failed = map id (fst result) /\
  (forall i, In i ids -> ~ In i failed) /\
  deleted + Z.of_nat (List.length failed) = Z.of_nat (List.length stored).
Proof.
  unfold bulkDeletePost. rewrite bulkDeleteFilter_spec. simpl.
  set (kept := filter (fun post => negb (arrayIncludes ids (id post))) stored).
  assert (Hkept : forall p, In p kept <-> In p stored /\ ~ In (id p) ids).
  { intros p. unfold kept. rewrite filter_In, negb_true_iff, arrayIncludes_not_In. tauto. }
  split; [exact Hkept|]. split; [reflexivity|]. split.
  - intros i Hi Hin. apply in_map_iff in Hin as (p & <- & Hp).
    apply Hkept in Hp. tauto.
  - rewrite length_map. lia.
Qed.

(** *** Counters and statistics *)

(** X5: [incrementViewCount] answers false and leaves the store alone for
    an id that no stored post has.  Otherwise the first post with the id
    gets one view more and nothing else changes: a lookup of the id
    returns that post with [viewCount + 1], and the other lookups answer
    as before. *)
Theorem incrementViewCount_then_getPostById (postId : string) (stored : list Post) :
  match getPostById postId stored with
  | None => incrementViewCount postId stored = (false, stored)
  | Some post =>
      exists stored',
        incrementViewCount postId stored = (true, stored') /\
        getPostById postId stored' = Some (withViewCount (viewCount post + 1) post) /\
        (forall k, k <> postId -> getPostById k stored' = getPostById k stored) /\
        List.length stored' = List.length stored
  end.
Proof.
  unfold getPostById, incrementViewCount, incrementAt.
  pose proof (findIndex_find (fun post => (id post =? postId)%string) stored) as H.
  destruct (findIndex _ stored) as [index|] eqn:Ei.
  - destruct H as (x & Hn & Hf & Hx). rewrite Hf, Hn.
    eexists. split; [reflexivity|]. split.
    + now apply find_assign_same.
    + split; [|now rewrite length_assign].
      apply String.eqb_eq in Hx.
      intros k Hk. apply (find_assign_other _ _ _ x); [exact Hn| |].
      * now apply id_eqb_other with postId.
      * now apply id_eqb_other with postId.
  - now rewrite H.
Qed.

(** X6: the statistics count every post under exactly one status,
    [total = published + drafts + archived]; a successful
    [incrementViewCount] raises [totalViews] by one and a successful
    [incrementLikeCount] raises [totalLikes] by one, and neither changes
    another statistic. *)
Theorem getPostStats_counts (postId : string) (stored : list Post) :
  let stats := getPostStats stored in
  total stats = publishedCount stats + drafts stats + archivedCount stats /\
  (fst (incrementViewCount postId stored) = true ->
   getPostStats (snd (incrementViewCount postId stored)) =
     mkStats (total stats) (publishedCount stats) (drafts stats) (archivedCount stats)
             (totalViews stats + 1) (totalLikes stats)) /\
  (fst (incrementLikeCount postId stored) = true ->
   getPostStats (snd (incrementLikeCount postId stored)) =
     mkStats (total stats) (publishedCount stats) (drafts stats) (archivedCount stats)
             (totalViews stats) (totalLikes stats + 1)).
Proof.
  simpl. split.
  - unfold countWhere.
    assert (H : List.length stored =
                (List.length (filter (fun p => Status_eqb (status p) published_status) stored)
                 + List.length (filter (fun p => Status_eqb (status p) draft) stored)
                 + List.length (filter (fun p => Status_eqb (status p) archived) stored))%nat).
    { induction stored as [|p l IH]; simpl; [reflexivity|].
      destruct (status p); simpl; lia. }
    lia.
  - unfold incrementViewCount, incrementLikeCount, incrementAt.
    destruct (findIndex _ stored) as [index|]; [|split; discriminate].
    destruct (nth_error stored index) as [x|] eqn:Hn; [|split; discriminate].
    split; intros _; simpl; unfold getPostStats, countWhere;
      rewrite !fold_left_sum, length_assign;
      rewrite !(sumOf_assign _ _ _ x _ Hn);
      rewrite !(filter_assign_length _ _ _ x _ Hn) by reflexivity;
      simpl; f_equal; lia.
Qed.

(** *** Scheduled publication *)

(** X7: [publishScheduledPosts] publishes nothing.  The posts it looks at
    come from [readPosts], where the schedule is the ISO text of the date;
    to compare it with the date [now] the text is turned into a number,
    which is NaN, so the guard is false for every post, also for one whose
    schedule has passed.  The count is 0 and the store stays as it is. *)
Theorem publishScheduledPosts_publishes_nothing (now : Z) (stored : list Post) :
  (forall at_ : Z, stringToNumber (toISOString at_) = NaN) /\
  (forall post, publishIfDue now post = (post, false)) /\
  publishScheduledPosts now stored = (stored, 0%nat).
Proof.
  split; [apply stringToNumber_toISOString|].
  split; [apply publishIfDue_never | apply publishScheduledPosts_unchanged].
Qed.

(** X8: [getUpcomingScheduledPosts] returns the empty list, whatever the
    store, the time and the hours asked for: the two comparisons of its
    filter are comparisons of the ISO text with a date, which are false. *)
Theorem getUpcomingScheduledPosts_lists_nothing (now hoursAhead : Z) (stored : list Post) :
  getUpcomingScheduledPosts now hoursAhead stored = Normal [].
Proof.
  unfold getUpcomingScheduledPosts.
  replace (filter _ stored) with (@nil Post); [reflexivity|].
  symmetry. induction stored as [|post l IH]; [reflexivity|].
  cbn [filter]. rewrite <- IH.
  destruct (scheduledPublishAt post) as [t|]; [|now rewrite andb_false_r].
  now rewrite textAboveDate_toISOString, !andb_false_r.
Qed.

(** What X7 and X8 mean for a scheduled post.  A post created with the
    status 'published' and a schedule one hour ahead is stored unpublished.
    Its schedule is stored as "2023-11-14T23:13:20.000Z"; a day later the
    run of [publishScheduledPosts] leaves it unpublished, and at the time
    of its creation it is not listed as upcoming. *)
Example scheduled_post_stays_unpublished :
  let created := createPost now "n" (scheduledRequest (now + 60 * 60 * 1000)) library in
  published (fst created) = false /\
  option_map toISOString (scheduledPublishAt (fst created)) = Some "2023-11-14T23:13:20.000Z" /\
  publishScheduledPosts (now + day) (snd created) = (snd created, 0%nat) /\
  getUpcomingScheduledPosts now 24 (snd created) = Normal [].
Proof. repeat split; vm_compute; reflexivity. Qed.

(** *** Updates in bulk and publication dates *)

(** X10: in the post [updatePost] writes, the status 'published' always
    comes with [published] true and a [publishedAt]; and an update never
    takes a [publishedAt] away, also when it unpublishes the post. *)
Theorem updatePost_publication
    (now : Z) (postId : string) (data : UpdatePostRequest.t)
    (stored stored' : list Post) (existingPost post : Post) :
  getPostById postId stored = Some existingPost ->
  updatePost now postId data stored = Some (post, stored') ->
  (status post = published_status -> published post = true /\ publishedAt post <> None) /\
  (publishedAt existingPost <> None -> publishedAt post <> None).
Proof.
  unfold getPostById, updatePost. intros Hget.
  pose proof (findIndex_find (fun p => (id p =? postId)%string) stored) as H.
  destruct (findIndex _ stored) as [index|]; [|discriminate].
  destruct H as (x & Hn & Hf & _). rewrite Hn. rewrite Hf in Hget. injection Hget as ->.
  intros E. injection E as <- _. unfold updatedPost.
  destruct (Status_eqb (orElse _ _) published_status) eqn:Es.
  - destruct (UpdatePostRequest.scheduledPublishAt data) as [[t|]|]; simpl;
      try destruct (t <=? now); simpl; repeat split; discriminate.
  - assert (Hs : orElse (UpdatePostRequest.status data) (status existingPost)
                 <> published_status)
      by (intros E; rewrite E in Es; discriminate).
    destruct (UpdatePostRequest.scheduledPublishAt data) as [[t|]|];
      rewrite ?andb_false_r; simpl; (split; [intros E; contradiction | tauto]).
Qed.

Lemma updatePost_publication_witness :
  (status (updatedPost now postB retitle) = published_status ->
   published (updatedPost now postB retitle) = true /\
   publishedAt (updatedPost now postB retitle) <> None) /\
  (publishedAt postB <> None -> publishedAt (updatedPost now postB retitle) <> None).
Proof.
  apply (updatePost_publication now "b" retitle library
           (assign library 1 (updatedPost now postB retitle)) postB
           (updatedPost now postB retitle)); reflexivity.
Defined.

(** X11: [bulkUpdatePosts] never reports a failure: [failed] is empty
    whatever the ids asked for (an id that is not stored is passed over),
    [updated] is the number of stored posts whose id is listed, and the
    store keeps the same ids in the same places. *)
Theorem bulkUpdatePosts_never_fails
    (clock : nat -> Z) (ids : list string) (updates : UpdatePostRequest.t)
    (stored : list Post) :
  let result := bulkUpdatePosts clock ids updates stored in
  snd (snd result) = [] /\
  fst (snd result) = List.length (filter (fun p => arrayIncludes ids (id p)) stored) /\
  map id (fst result) = map id stored.
Proof.
  unfold bulkUpdatePosts.
  destruct (bulkUpdateLoop_never_fails clock ids updates stored 0 stored 0 [])
    as (H1 & H2 & H3).
  - intros p Hp. now apply in_map.
  - split; [exact H3|]. split; [exact H2 | exact H1].
Qed.

(** X12: [validateRelatedPosts] sorts every id it is given into exactly one
    of the two lists: [valid] holds the ids that a stored post has,
    [invalid] the others, and together they are as many as the ids given. *)
Theorem validateRelatedPosts_partition (postIds : list string) (stored : list Post) :
  let result := validateRelatedPosts postIds stored in
  (forall i, In i (fst result) <-> In i postIds /\ exists p, In p stored /\ id p = i) /\
  (forall i, In i (snd result) <-> In i postIds /\ forall p, In p stored -> id p <> i) /\
  (List.length (fst result) + List.length (snd result))%nat = List.length postIds.
Proof.
  unfold validateRelatedPosts.
  destruct (List.length postIds =? 0)%nat eqn:E.
  - destruct postIds; [|discriminate].
    simpl. repeat split; try tauto; intros [[] _].
  - cbv zeta. cbn [fst snd]. clear E.
    split; [|split].
    + intros i. rewrite filter_In, arrayIncludes_In, in_map_iff.
      split; intros [H1 (p & H2 & H3)]; eauto.
    + intros i. rewrite filter_In, negb_true_iff, arrayIncludes_not_In, in_map_iff.
      split.
      * intros [H1 H2]. split; [exact H1|]. intros p Hp E. apply H2. eauto.
      * intros [H1 H2]. split; [exact H1|]. intros (p & E & Hp). now apply (H2 p).
    + clear. induction postIds as [|i l IH]; simpl; [reflexivity|].
      destruct (arrayIncludes _ i); simpl; lia.
Qed.

(** *** Listing posts *)

(** X13: every post [getPosts] returns is a stored post that passes each
    filter that is set: the [published] flag and the status asked for, the
    category (compared without case), the author and the tag (contained,
    without case), the bounds on the creation date and on the views, and
    the excluded ids. *)
Theorem getPosts_honours_filters (filters : PostFilters.t) (stored : list Post) (p : Post) :
  In p (getPosts filters stored) ->
  In p stored /\
  (forall b, PostFilters.published filters = Some b -> published p = b) /\
  (forall s, PostFilters.status filters = Some s -> status p = s) /\
  (forall c, PostFilters.category filters = Some c -> c <> EmptyString ->
             toLowerCase (category p) = toLowerCase c) /\
  (forall a, PostFilters.author filters = Some a -> a <> EmptyString ->
             includes (toLowerCase (author p)) (toLowerCase a) = true) /\
  (forall t, PostFilters.tag filters = Some t -> t <> EmptyString ->
             exists tag, In tag (tags p) /\
                         includes (toLowerCase tag) (toLowerCase t) = true) /\
  (forall d, PostFilters.dateFrom filters = Some d -> d <= createdAt p) /\
  (forall d, PostFilters.dateTo filters = Some d -> createdAt p <= d) /\
  (forall v, PostFilters.minViews filters = Some v -> v <= viewCount p) /\
  (forall ids, PostFilters.excludeIds filters = Some ids -> ~ In (id p) ids).
Proof.
  intros H. apply In_getPosts_filtered in H. unfold applyFilters in H. cbv zeta in H.
  apply whenString_In in H as [H _].
  apply excludeIds_In in H as [H Hexclude].
  apply whenSome_In in H as [H Hviews].
  apply whenSome_In in H as [H Hto].
  apply whenSome_In in H as [H Hfrom].
  apply whenString_In in H as [H _].
  apply whenSome_In in H as [H Hstatus].
  apply whenString_In in H as [H Htag].
  apply whenString_In in H as [H Hcategory].
  apply whenString_In in H as [H Hauthor].
  apply whenSome_In in H as [H Hpublished].
  split; [exact H|].
  split; [intros b E; specialize (Hpublished b E); now apply eqb_prop in Hpublished|].
  split; [intros s E; specialize (Hstatus s E); now destruct (status p), s|].
  split; [intros c E Hne; now apply String.eqb_eq, Hcategory|].
  split; [intros a E Hne; now apply Hauthor|].
  split; [intros t E Hne; specialize (Htag t E Hne);
          apply existsb_exists in Htag as (tag & H1 & H2); eauto|].
  split; [intros d E; now apply Z.leb_le, Hfrom|].
  split; [intros d E; now apply Z.leb_le, Hto|].
  split; [intros v E; now apply Z.leb_le, Hviews|].
  exact Hexclude.
Qed.

Lemma getPosts_honours_filters_witness :
  In postC library /\
  (forall b, PostFilters.published (publishedExcept "a" None) = Some b -> published postC = b) /\
  (forall s, PostFilters.status (publishedExcept "a" None) = Some s -> status postC = s) /\
  (forall c, PostFilters.category (publishedExcept "a" None) = Some c -> c <> EmptyString ->
             toLowerCase (category postC) = toLowerCase c) /\
  (forall a, PostFilters.author (publishedExcept "a" None) = Some a -> a <> EmptyString ->
             includes (toLowerCase (author postC)) (toLowerCase a) = true) /\
  (forall t, PostFilters.tag (publishedExcept "a" None) = Some t -> t <> EmptyString ->
             exists tag, In tag (tags postC) /\
                         includes (toLowerCase tag) (toLowerCase t) = true) /\
  (forall d, PostFilters.dateFrom (publishedExcept "a" None) = Some d -> d <= createdAt postC) /\
  (forall d, PostFilters.dateTo (publishedExcept "a" None) = Some d -> createdAt postC <= d) /\
  (forall v, PostFilters.minViews (publishedExcept "a" None) = Some v -> v <= viewCount postC) /\
  (forall ids, PostFilters.excludeIds (publishedExcept "a" None) = Some ids ->
               ~ In (id postC) ids).
Proof.
  apply (getPosts_honours_filters (publishedExcept "a" None) library postC).
  vm_compute. left. reflexivity.
Defined.

(** X14: without a limit and an offset, [getPosts] returns every post
    that passes the filters, each one once: its result is a rearrangement
    of the filtered posts. *)
Theorem getPosts_unpaginated (filters : PostFilters.t) (stored : list Post) :
  PostFilters.limit filters = None -> PostFilters.offset filters = None ->
  getPosts filters stored = sortPosts filters (applyFilters filters stored) /\
  Permutation (getPosts filters stored) (applyFilters filters stored).
Proof.
  intros Hl Ho.
  assert (E : getPosts filters stored = sortPosts filters (applyFilters filters stored)).
  { unfold getPosts, paginate. rewrite Hl, Ho. simpl orNumber. apply slice_all. }
  split; [exact E|]. rewrite E. apply sort_Permutation.
Qed.

Lemma getPosts_unpaginated_witness :
  getPosts PostFilters.empty library
    = sortPosts PostFilters.empty (applyFilters PostFilters.empty library) /\
  Permutation (getPosts PostFilters.empty library) (applyFilters PostFilters.empty library).
Proof. apply (getPosts_unpaginated PostFilters.empty library); reflexivity. Defined.

(** X15: pages follow each other without a gap or an overlap: the page of
    [n] posts at offset [o], followed by the page of [m] posts at offset
    [o + n], is the page of [n + m] posts at offset [o]. *)
Theorem getPosts_pages_concatenate
    (filters : PostFilters.t) (stored : list Post) (o n m : Z) :
  0 <= o -> 0 < n -> 0 < m ->
  getPosts (withPage o n filters) stored ++ getPosts (withPage (o + n) m filters) stored
  = getPosts (withPage o (n + m) filters) stored.
Proof.
  intros Ho Hn Hm. unfold getPosts, paginate.
  change (sortPosts (withPage o n filters) (applyFilters (withPage o n filters) stored))
    with (sortPosts filters (applyFilters filters stored)).
  change (sortPosts (withPage (o + n) m filters)
            (applyFilters (withPage (o + n) m filters) stored))
    with (sortPosts filters (applyFilters filters stored)).
  change (sortPosts (withPage o (n + m) filters)
            (applyFilters (withPage o (n + m) filters) stored))
    with (sortPosts filters (applyFilters filters stored)).
  simpl PostFilters.offset. simpl PostFilters.limit.
  assert (Hor : forall k d, 0 < k -> orNumber (Some k) d = k).
  { intros k d Hk. unfold orNumber. destruct (k =? 0) eqn:E; [|reflexivity].
    apply Z.eqb_eq in E. lia. }
  assert (Hor0 : forall k, orNumber (Some k) 0 = k).
  { intros k. unfold orNumber. destruct (k =? 0) eqn:E; [|reflexivity].
    apply Z.eqb_eq in E. now subst. }
  rewrite !Hor0, !Hor by lia.
  replace (o + (n + m)) with (o + n + m) by lia.
  apply slice_app; lia.
Qed.

Lemma getPosts_pages_concatenate_witness :
  getPosts (withPage 0 1 PostFilters.empty) library
    ++ getPosts (withPage (0 + 1) 1 PostFilters.empty) library
  = getPosts (withPage 0 (1 + 1) PostFilters.empty) library.
Proof. apply (getPosts_pages_concatenate PostFilters.empty library 0 1 1); lia. Defined.

(** *** More on search and related posts *)

(** X16: for a query with a token, every post [searchPosts] returns has a
    score above zero, and with a positive [limit] the result holds at most
    [limit] posts; this holds whatever the regular expression engine
    answers for the tokens. *)
Theorem searchPosts_positive_scores
    (matchCount : RegExp.Engine) (now : Z) (query : string) (filters : PostFilters.t)
    (stored out : list Post) :
  searchTermsOf query <> [] ->
  searchPostsWith matchCount now query filters stored = Normal out ->
  (forall p, In p out ->
     exists score,
       scorePostWith matchCount now (searchTermsOf query) p = Normal score /\ (0 < score)%Q) /\
  (forall n, PostFilters.limit filters = Some n -> 0 < n ->
             Z.of_nat (List.length out) <= n).
Proof.
  intros Hterms. rewrite (searchPostsWith_scored matchCount now query filters stored Hterms).
  destruct (mapM _ _) as [scoredPosts|e] eqn:E; simpl; [|discriminate].
  pose proof (scored_items _ _ _ _ _ E) as Hitems.
  intros H. injection H as <-. split.
  - intros p Hp.
    assert (Hin : In p (map fst (sort (fun a b => Qlt_bool 0%Q (compareScored a b))
                                   (filter (fun item => Qlt_bool 0%Q (snd item)) scoredPosts)))).
    { destruct (PostFilters.limit filters) as [l|]; [destruct (l =? 0)|]; try exact Hp.
      now apply In_slice in Hp. }
    apply in_map_iff in Hin as (item & <- & Hi).
    apply In_sort in Hi. apply filter_In in Hi as [Hi Hpos].
    exists (snd item). split; [now apply Hitems | now apply Qlt_bool_iff].
  - intros n Hn Hpos. rewrite Hn.
    destruct (n =? 0) eqn:E0; [apply Z.eqb_eq in E0; lia|].
    apply length_slice_prefix. lia.
Qed.

Lemma searchPosts_positive_scores_witness :
  (forall p, In p [postC] ->
     exists score,
       scorePostWith RegExp.matchCount now (searchTermsOf "typed") p = Normal score /\
       (0 < score)%Q) /\
  (forall n, PostFilters.limit (withPage 0 1 PostFilters.empty) = Some n -> 0 < n ->
             Z.of_nat (List.length [postC]) <= n).
Proof.
  apply (searchPosts_positive_scores RegExp.matchCount now "typed"
           (withPage 0 1 PostFilters.empty) library [postC]).
  - vm_compute. discriminate.
  - vm_compute. reflexivity.
Defined.

(** X17: the letter case of a query and the white space around it do not
    matter: [searchPosts] gives the same answer for the query in lower
    case and for the trimmed query. *)
Theorem searchPosts_ignores_case_and_margin
    (now : Z) (query : string) (filters : PostFilters.t) (stored : list Post) :
  searchPosts now (toLowerCase query) filters stored = searchPosts now query filters stored /\
  searchPosts now (trim query) filters stored = searchPosts now query filters stored.
Proof.
  split.
  - unfold searchPosts, searchPostsWith, searchTermsOf.
    rewrite toLowerCase_idempotent, (trim_toLowerCase query), !length_toLowerCase.
    rewrite <- (trim_toLowerCase query). reflexivity.
  - unfold searchPosts, searchPostsWith, searchTermsOf.
    rewrite (trim_toLowerCase (trim query)), trim_idempotent, <- (trim_toLowerCase query).
    destruct (String.length (trim query) =? 0)%nat eqn:E.
    + now rewrite !orb_true_r.
    + replace (String.length query =? 0)%nat with false; [reflexivity|].
      destruct query; [discriminate E | reflexivity].
Qed.

(** X18: for a token without pattern syntax characters that the content
    contains, the content adds 5 points and one point for each occurrence
    up to ten, 6 to 15 points in all: the score is the one of the same
    record with an empty content, with that many points more in the sum to
    which the popularity bonus is added.  Up to 100 views, where there is
    no bonus, the two scores differ by exactly these points. *)
Theorem scorePost_content_signal (now : Z) (term : string) (p : Post) :
  plain term = true -> term <> EmptyString ->
  includes (toLowerCase (content p)) term = true ->
  let added := 5 + Z.min (Z.of_nat (occurrences term (toLowerCase (content p)))) 10 in
  6 <= added <= 15 /\
  exists points : Z,
    scorePost now [term] (withContent EmptyString p)
    = Normal (withPopularity points (viewCount p)) /\
    scorePost now [term] p = Normal (withPopularity (points + added) (viewCount p)) /\
    (viewCount p <= 100 ->
     (withPopularity (points + added) (viewCount p)
      == withPopularity points (viewCount p) + inject_Z added)%Q).
Proof.
  intros Hp Hne Hin added.
  assert (Hocc : (1 <= occurrences term (toLowerCase (content p)))%nat)
    by (apply occurrencesFrom_positive; [exact Hne | exact Hin | lia]).
  split; [unfold added; lia|].
  unfold scorePost, scorePostWith, withContent.
  cbn [title excerpt content category author tags publishedAt createdAt viewCount
       toLowerCase foldM].
  destruct (scoreTerm_content (toLowerCase (title p)) (toLowerCase (excerpt p))
              (toLowerCase (content p)) (toLowerCase (category p)) (toLowerCase (author p))
              (map toLowerCase (tags p)) 0 term Hp Hne Hin) as (s0 & H0 & H1).
  rewrite H1, H0. cbn [bind]. fold added.
  assert (Hsum : forall n, viewCount p <= 100 ->
             (withPopularity (n + added) (viewCount p)
              == withPopularity n (viewCount p) + inject_Z added)%Q).
  { intros n Hv. unfold withPopularity. apply Z.ltb_ge in Hv. rewrite Hv.
    now rewrite inject_Z_plus. }
  unfold withPopularity at 1 2.
  destruct (Qlt_bool _ 30%Q).
  - exists (s0 + 5). split; [reflexivity|]. split; [|apply Hsum].
    now replace (s0 + added + 5) with (s0 + 5 + added) by lia.
  - exists s0. split; [reflexivity|]. split; [reflexivity | apply Hsum].
Qed.

Lemma scorePost_content_signal_witness :
  let added := 5 + Z.min (Z.of_nat (occurrences "tally" (toLowerCase (content tallyTwice)))) 10 in
  6 <= added <= 15 /\
  exists points : Z,
    scorePost now ["tally"] (withContent EmptyString tallyTwice)
    = Normal (withPopularity points (viewCount tallyTwice)) /\
    scorePost now ["tally"] tallyTwice
    = Normal (withPopularity (points + added) (viewCount tallyTwice)) /\
    (viewCount tallyTwice <= 100 ->
     (withPopularity (points + added) (viewCount tallyTwice)
      == withPopularity points (viewCount tallyTwice) + inject_Z added)%Q).
Proof.
  apply (scorePost_content_signal now "tally" tallyTwice).
  - reflexivity.
  - discriminate.
  - reflexivity.
Defined.

(** Above 100 views the two scores of X18 are rounded sums, and their
    difference need not be the points added: with 101 views and one
    occurrence it is not 6. *)
Example content_signal_is_rounded :
  scorePost now ["tally"] (withContent EmptyString (withViewCount 101 tallyOnce))
  = Normal (double (0 + double (101 # 100))) /\
  scorePost now ["tally"] (withViewCount 101 tallyOnce)
  = Normal (double (6 + double (101 # 100))) /\
  ~ (double (6 + double (101 # 100)) == double (0 + double (101 # 100)) + 6)%Q.
Proof. repeat split; try (vm_compute; reflexivity). vm_compute. discriminate. Qed.

(** X19: every post [getRelatedPosts] returns is a stored, published post;
    and for a reference post without curated relations the result runs
    from the highest similarity to the lowest, the similarity being the
    number the code computes. *)
Theorem getRelatedPosts_published_and_ordered
    (now : Z) (postId : string) (limit : Z) (stored : list Post) (post : Post) :
  getPostById postId stored = Some post ->
  (forall p, In p (getRelatedPosts now postId limit stored) ->
             In p stored /\ published p = true) /\
  (relatedPosts post = None \/ relatedPosts post = Some [] ->
   StronglySorted (fun a b => (similarity now post b <= similarity now post a)%Q)
                  (getRelatedPosts now postId limit stored)).
Proof.
  intros Hget. unfold getRelatedPosts. rewrite Hget. split.
  - intros p Hp.
    assert (Hin : exists l, In p (getPosts (publishedExcept postId l) stored)).
    { destruct (curatedPhase postId limit post stored) as [filtered|[filtered limit']] eqn:E.
      - apply curatedPhase_inl in E as [Hin _]. eauto.
      - apply In_automaticPhase in Hp. eauto. }
    destruct Hin as [l Hin]. split; [now apply In_getPosts_stored in Hin|].
    now apply In_getPosts_filtered, applyFilters_publishedExcept in Hin.
  - intros Hnone.
    assert (E : curatedPhase postId limit post stored = inr ([], limit))
      by (unfold curatedPhase; destruct Hnone as [-> | ->]; reflexivity).
    rewrite E. unfold automaticPhase.
    apply StronglySorted_map, StronglySorted_slice.
    eapply StronglySorted_weaken;
      [|apply (sort_sorted (fun a b : Post * Q => Qlt_bool 0%Q (double (snd b - snd a))))].
    + intros a b Ha Hb Hab. unfold notAfter in Hab. apply similarity_not_after in Hab.
      apply In_sort, in_map_iff in Ha as (x & <- & _).
      apply In_sort, in_map_iff in Hb as (y & <- & _). exact Hab.
    + intros a b. apply similarity_after_asym.
    + intros a b c. rewrite !similarity_not_after. lra.
Qed.

Lemma getRelatedPosts_published_and_ordered_witness :
  (forall p, In p (getRelatedPosts now "b" 2 library) -> In p library /\ published p = true) /\
  (relatedPosts postB = None \/ relatedPosts postB = Some [] ->
   StronglySorted (fun a b => (similarity now postB b <= similarity now postB a)%Q)
                  (getRelatedPosts now "b" 2 library)).
Proof. apply (getRelatedPosts_published_and_ordered now "b" 2 library postB). reflexivity. Defined.

(** The similarities behind an order.  [freshNote] has the 5 points of a
    recent post and 119 views, [oldEssay] no point and 619 views: the
    exact sums are both 6.19, the sum the code forms for the first is
    6.1899999999999995, and so the older post comes first. *)
Example getRelatedPosts_orders_by_rounded_sums :
  similarity now almanac freshNote = double (5 + double (119 # 100)) /\
  similarity now almanac oldEssay = double (0 + double (619 # 100)) /\
  (5 + (119 # 100) == 0 + (619 # 100))%Q /\
  (double (5 + double (119 # 100)) < double (0 + double (619 # 100)))%Q /\
  getPosts (publishedExcept "x" (Some (2 * 3))) [almanac; freshNote; oldEssay]
  = [freshNote; oldEssay] /\
  getRelatedPosts now "x" 2 [almanac; freshNote; oldEssay] = [oldEssay; freshNote].
Proof. repeat split; vm_compute; reflexivity. Qed.

(** *** Slugs, words and reading time *)

(** X20: the slug of any title is made of lower-case letters, digits,
    underscores and hyphens only, with no hyphen at its start or end and no
    two hyphens in a row (it may be empty); a string of that shape is its
    own slug, so making the slug of a slug changes nothing. *)
Theorem generateSlug_well_formed (title : string) :
  wellFormedSlug (generateSlug title) = true /\
  (forall slug, wellFormedSlug slug = true -> generateSlug slug = slug) /\
  generateSlug (generateSlug title) = generateSlug title.
Proof.
  split; [apply generateSlug_shape|].
  split; [intros slug; apply generateSlug_fixed|].
  apply generateSlug_fixed, generateSlug_shape.
Qed.

(** X21: [calculateWordCount] is zero exactly for a content that is empty
    or all white space; it never exceeds the number of pieces that
    [calculateReadingTime] counts, which holds at most two pieces more (the
    empty ones at the two ends). *)
Theorem calculateWordCount_zero_iff_blank (content : string) :
  (calculateWordCount content = 0 <-> blank content = true) /\
  calculateWordCount content <= Z.of_nat (List.length (split_whitespace content))
    <= calculateWordCount content + 2.
Proof.
  unfold calculateWordCount. split.
  - rewrite <- (words_of_pieces false content). unfold split_whitespace.
    destruct (filter _ (splitWs false content)); simpl; split; try reflexivity;
      try discriminate; lia.
  - pose proof (pieces_and_words content) as H. simpl in H. lia.
Qed.

(** X22: the reading time is at least one minute, also for an empty
    content, and it is the number of words over 200 rounded up, where the
    empty pieces at the two ends of the content count as words: with [w]
    the word count, [w <= 200 * minutes] and [200 * (minutes - 1) < w + 2]. *)
Theorem calculateReadingTime_bounds (content : string) :
  let minutes := calculateReadingTime content in
  let words := calculateWordCount content in
  1 <= minutes /\ words <= 200 * minutes /\ 200 * (minutes - 1) < words + 2.
Proof.
  unfold calculateReadingTime, calculateWordCount.
  pose proof (pieces_and_words content) as H. simpl in H.
  pose proof (ceiling_of_200th (Z.of_nat (List.length (split_whitespace content)))) as Hc.
  cbv zeta in *. lia.
Qed.

(** X23: [ensureUniqueSlug] always finds a slug, after trying at most one
    slug more than there are posts: the base slug when that is free, else
    the first free one of [base-1], [base-2], ...; the slug returned is
    used by no stored post other than the excluded one. *)
Theorem ensureUniqueSlug_finds_a_free_slug
    (posts : list (string * string)) (baseSlug : string) (excludeId : option string) :
  exists slug k,
    ensureUniqueSlug posts baseSlug excludeId = Some slug /\
    slug = candidateSlug baseSlug k /\ (k <= List.length posts)%nat /\
    (forall i, (i < k)%nat -> slugTaken posts excludeId (candidateSlug baseSlug i) = true) /\
    (forall post, In post posts -> snd post = slug -> Some (fst post) = excludeId).
Proof.
  unfold ensureUniqueSlug.
  pose proof (uniqueSlugLoop_spec posts excludeId baseSlug (S (List.length posts)) 0) as H.
  simpl candidateSlug in H.
  destruct (uniqueSlugLoop (S (List.length posts)) posts excludeId baseSlug baseSlug 1)
    as [slug|].
  - destruct H as (k & Hk & Hslug & Hfree & Hbefore); [intros i Hi; lia|].
    exists slug, k. split; [reflexivity|]. split; [exact Hslug|]. split; [lia|].
    split; [exact Hbefore|].
    intros post Hin Hs. unfold slugTaken in Hfree.
    assert (Hp : ((snd post =? slug)%string
                  && negb (match excludeId with
                           | Some e => (fst post =? e)%string
                           | None => false
                           end)) = false).
    { destruct (_ && _) eqn:E; [|reflexivity].
      assert (Hex : existsb (fun post => (snd post =? slug)%string
                       && negb (match excludeId with
                                | Some e => (fst post =? e)%string
                                | None => false
                                end)) posts = true)
        by (apply existsb_exists; eauto).
      congruence. }
    rewrite Hs, String.eqb_refl in Hp. simpl in Hp.
    destruct excludeId as [e|]; [|discriminate].
    apply negb_false_iff, String.eqb_eq in Hp. now subst.
  - exfalso. apply (candidates_not_all_taken posts excludeId baseSlug).
    apply H. intros i Hi. lia.
Qed.

End Extras.
